(** * shendanshu: the particle choreography and gesture state machine

    A shallow embedding of the algorithmic core of the visualizer:
    - the enumerations and records of [types.ts];
    - [generateParticles] and [getTargetPosition] of [utils/geometry.ts]
      (src/unnamed/part_001);
    - [detectGesture] and the [onResults] handler of [HandController], which
      emits a [HandControlState] (src/components/Particles.tsx, 171-304);
    - the gesture effect and the per-frame photo switching of [Scene]
      (src/components/Particles.tsx, 511-555);
    - the per-frame easing of [Particles] (src/components/Particles.tsx,
      46-96) and the target resolution and easing of a photo panel in
      [PhotoCloud] (src/components/PhotoCloud.tsx, 83-216);
    - the constants (the end of src/components/PhotoCloud.tsx).

    JavaScript numbers are idealised as real numbers ([R]); [Math.random]
    is an explicit stream of draws in [0, 1); the methods of three.js the
    program calls are written out from the library's definitions. *)

From Stdlib Require Import Reals Lra Lia ZArith List String Bool Psatz.
From Stdlib Require Import Permutation.
Import ListNotations.
Local Open Scope R_scope.

(* ================================================================== *)
(** * Part I: definitions                                               *)
(* ================================================================== *)

(** ** types.ts *)

Inductive AppState : Type :=
  | ASSEMBLED   (* The Tree shape *)
  | SCATTERED   (* The Cloud shape *)
  | FOCUSED.    (* Photo zoom *)

Inductive GestureType : Type :=
  | NONE
  | FIST        (* Close tree *)
  | OPEN_PALM   (* Open tree *)
  | PINCH.      (* Grab/Focus *)

Inductive ParticleType : Type := SPHERE | CUBE | LIGHT.

Definition AppState_eqb (a b : AppState) : bool :=
  match a, b with
  | ASSEMBLED, ASSEMBLED | SCATTERED, SCATTERED | FOCUSED, FOCUSED => true
  | _, _ => false
  end.

Definition GestureType_eqb (a b : GestureType) : bool :=
  match a, b with
  | NONE, NONE | FIST, FIST | OPEN_PALM, OPEN_PALM | PINCH, PINCH => true
  | _, _ => false
  end.

Definition ParticleType_eqb (a b : ParticleType) : bool :=
  match a, b with
  | SPHERE, SPHERE | CUBE, CUBE | LIGHT, LIGHT => true
  | _, _ => false
  end.

(** Comparisons of numbers, as booleans. *)
Definition Rltb (a b : R) : bool := if Rlt_dec a b then true else false.
Definition Rgtb (a b : R) : bool := Rltb b a.

(** ** The part of three.js the program calls *)

Module MathUtils.
(** [MathUtils.lerp(x, y, t) = (1 - t) * x + t * y] *)
Definition lerp (x y t : R) : R := (1 - t) * x + t * y.

(** [MathUtils.clamp(value, min, max) = Math.max(min, Math.min(max, value))] *)
Definition clamp (value lo hi : R) : R := Rmax lo (Rmin hi value).
End MathUtils.

Module Vector3.
Record t : Type := new { x : R; y : R; z : R }.

(** [this.x += (v.x - this.x) * alpha], and the same for y and z. *)
Definition lerp (this v : t) (alpha : R) : t :=
    new (x this + (x v - x this) * alpha)
        (y this + (y v - y this) * alpha)
        (z this + (z v - z this) * alpha).

Definition add (this v : t) : t :=
    new (x this + x v) (y this + y v) (z this + z v).

Definition multiplyScalar (this : t) (s : R) : t :=
    new (x this * s) (y this * s) (z this * s).

End Vector3.

Module Quaternion.
Record t : Type := new { x : R; y : R; z : R; w : R }.

(** [new Quaternion()] *)
Definition identity : t := new 0 0 0 1.

(** [setFromEuler] of an [Euler] in the default order XYZ. *)
Definition setFromEuler (ex ey ez : R) : t :=
    let c1 := cos (ex / 2) in
    let c2 := cos (ey / 2) in
    let c3 := cos (ez / 2) in
    let s1 := sin (ex / 2) in
    let s2 := sin (ey / 2) in
    let s3 := sin (ez / 2) in
    new (s1 * c2 * c3 + c1 * s2 * s3)
        (c1 * s2 * c3 - s1 * c2 * s3)
        (c1 * c2 * s3 + s1 * s2 * c3)
        (c1 * c2 * c3 - s1 * s2 * s3).

(** [Vector3.applyQuaternion]: the vector rotated by [q]. *)
Definition applyTo (v : Vector3.t) (q : t) : Vector3.t :=
    let vx := Vector3.x v in
    let vy := Vector3.y v in
    let vz := Vector3.z v in
    let ix := w q * vx + y q * vz - z q * vy in
    let iy := w q * vy + z q * vx - x q * vz in
    let iz := w q * vz + x q * vy - y q * vx in
    let iw := - x q * vx - y q * vy - z q * vz in
    Vector3.new
      (ix * w q + iw * - x q + iy * - z q - iz * - y q)
      (iy * w q + iw * - y q + iz * - x q - ix * - z q)
      (iz * w q + iw * - z q + ix * - y q - iy * - x q).
End Quaternion.

(** ** types.ts, continued *)

Record ParticleData : Type := mkParticle {
  id : string;
  initialPos : Vector3.t;  (* Tree position *)
  scatterPos : Vector3.t;  (* Random position *)
  type : ParticleType;
  color : string;
  scale : R
}.

Record PhotoData : Type := mkPhoto {
  photo_id : string;
  url : string;
  aspectRatio : R
}.

Module Vec2.
Record t : Type := new { x : R; y : R }.
End Vec2.

Record HandControlState : Type := mkHand {
  gesture : GestureType;
  position : Vec2.t;  (* Normalized -1 to 1 *)
  rotation : R
}.

(** ** constants.ts *)

Module COLORS.
Definition GOLD : string := "#FFC800".
Definition RED : string := "#D90429".
Definition GREEN : string := "#4CA64C".
Definition LIGHT : string := "#FFFACD".
End COLORS.

Definition PARTICLE_COUNT : nat := 3000.
Definition TREE_HEIGHT : R := 10.
Definition TREE_RADIUS_BASE : R := 42 / 10.
Definition SCATTER_BOUNDS : R := 22.

(** ** utils/geometry.ts: the layout resolver *)

Definition getTargetPosition (particle : ParticleData) (state : AppState)
  : Vector3.t :=
  if AppState_eqb state SCATTERED || AppState_eqb state FOCUSED
  then scatterPos particle
  else initialPos particle.

(** ** Scene: the gesture effect *)

(** The effect that runs on a gesture update.  It reads the gesture, the
    mode and the photo list and calls [setAppState]; the result is the
    sequence of those calls, in order.  It never calls [setActiveIndex]. *)
Definition gestureEffect (gesture : GestureType) (appState : AppState)
    (photos_length : nat) : list AppState :=
  (match gesture with
   | FIST => [ASSEMBLED]
   | OPEN_PALM =>
       if negb (AppState_eqb appState SCATTERED)
          && negb (AppState_eqb appState FOCUSED)
       then [SCATTERED] else []
   | PINCH =>
       if AppState_eqb appState SCATTERED && (0 <? photos_length)%nat
       then [FOCUSED] else []
   | NONE => []
   end)
  ++
  (if GestureType_eqb gesture OPEN_PALM && AppState_eqb appState FOCUSED
   then [SCATTERED] else []).

(** A state setter called several times keeps the last value. *)
Definition applySets {A : Type} (calls : list A) (current : A) : A :=
  fold_left (fun _ v => v) calls current.

(** The state the scene owns or reads: the mode (held by [App]), the
    active photo index and the time of the last photo switch. *)
Record SceneState : Type := mkScene {
  appState : AppState;
  activeIndex : Z;
  lastSwitchTime : R
}.

Definition initialScene : SceneState := mkScene ASSEMBLED 0%Z 0.

Definition gestureUpdate (gesture : GestureType) (photos_length : nat)
    (s : SceneState) : SceneState :=
  mkScene (applySets (gestureEffect gesture (appState s) photos_length)
                     (appState s))
          (activeIndex s)
          (lastSwitchTime s).

(** ** Scene: photo switching in [useFrame] *)

Definition COOLDOWN : R := 8 / 10.
Definition THRESHOLD : R := 4 / 10.

(** JavaScript's [%] on integers truncates towards zero: [Z.rem]. *)
Definition photoSwitch (photos_length : nat) (time rot : R)
    (s : SceneState) : SceneState :=
  let n := Z.of_nat photos_length in
  if AppState_eqb (appState s) FOCUSED && (1 <? photos_length)%nat then
    if Rlt_dec COOLDOWN (time - lastSwitchTime s) then
      if Rlt_dec rot (- THRESHOLD) then
        mkScene (appState s) (Z.rem (activeIndex s - 1 + n) n) time
      else if Rlt_dec THRESHOLD rot then
        mkScene (appState s) (Z.rem (activeIndex s + 1) n) time
      else s
    else s
  else s.

(** ** HandController: the gesture classifier and the pose handler *)

Module Landmark.
Record t : Type := new { x : R; y : R; z : R }.
End Landmark.

(** [Math.hypot(a, b)] *)
Definition hypot (a b : R) : R := sqrt (a * a + b * b).

(** [Math.atan2(y, x)] *)
Definition atan2 (y x : R) : R :=
  if Rlt_dec 0 x then atan (y / x)
  else if Rlt_dec x 0 then
    if Rle_dec 0 y then atan (y / x) + PI else atan (y / x) - PI
  else if Rlt_dec 0 y then PI / 2
  else if Rlt_dec y 0 then - (PI / 2)
  else 0.

Definition dist (p1 p2 : Landmark.t) : R :=
  hypot (Landmark.x p1 - Landmark.x p2) (Landmark.y p1 - Landmark.y p2).

Definition PINCH_DIST : R := 5 / 100.
Definition EXTEND_MARGIN : R := 5 / 100.

(** [count] of the entries of a boolean array that pass [filter(Boolean)]. *)
Definition countTrue (l : list bool) : nat :=
  List.length (filter (fun b : bool => b) l).

(** Reading [landmarks[i]] gives [undefined] past the end of the array,
    and reading [.x] of [undefined] throws a TypeError: [None]. *)
Definition detectGesture (landmarks : list Landmark.t) : option GestureType :=
  match nth_error landmarks 4, nth_error landmarks 8 with
  | Some thumbTip, Some indexTip =>
      let pinchDist :=
        hypot (Landmark.x thumbTip - Landmark.x indexTip)
              (Landmark.y thumbTip - Landmark.y indexTip) in
      if Rlt_dec pinchDist PINCH_DIST then Some PINCH
      else
        match nth_error landmarks 0,
              nth_error landmarks 6, nth_error landmarks 12,
              nth_error landmarks 10, nth_error landmarks 16,
              nth_error landmarks 14, nth_error landmarks 20,
              nth_error landmarks 18 with
        | Some wrist, Some pip6, Some middleTip, Some pip10,
          Some ringTip, Some pip14, Some pinkyTip, Some pip18 =>
            let isIndexExtended :=
              Rgtb (dist indexTip wrist) (dist pip6 wrist + EXTEND_MARGIN) in
            let isMiddleExtended :=
              Rgtb (dist middleTip wrist) (dist pip10 wrist + EXTEND_MARGIN) in
            let isRingExtended :=
              Rgtb (dist ringTip wrist) (dist pip14 wrist + EXTEND_MARGIN) in
            let isPinkyExtended :=
              Rgtb (dist pinkyTip wrist) (dist pip18 wrist + EXTEND_MARGIN) in
            let extendedCount :=
              countTrue [isIndexExtended; isMiddleExtended;
                         isRingExtended; isPinkyExtended] in
            if (3 <=? extendedCount)%nat then Some OPEN_PALM
            else if (extendedCount <=? 1)%nat then Some FIST
            else Some NONE
        | _, _, _, _, _, _, _, _ => None
        end
  | _, _ => None
  end.

(** What the vision library hands to [onResults]: [multiHandLandmarks]
    may be missing, or an array with one landmark array per hand. *)
Record Results : Type := mkResults {
  multiHandLandmarks : option (list (list Landmark.t))
}.

(** What one run of the [onResults] handler does. *)
Inductive Outcome : Type :=
  | Skipped                          (* returned without calling onUpdate *)
  | Threw                            (* a TypeError escaped the handler *)
  | Updated (s : HandControlState).  (* onUpdate(s) *)

Definition defaultPose : HandControlState :=
  mkHand NONE (Vec2.new 0 0) 0.

Definition handPose (landmarks : list Landmark.t) : option HandControlState :=
  match detectGesture landmarks with
  | None => None
  | Some gesture =>
      match nth_error landmarks 9 with
      | None => None
      | Some palm =>
          let palmX := Landmark.x palm in
          let palmY := Landmark.y palm in
          (* Normalize to -1 to 1, invert X for mirror effect *)
          let x := (1 - palmX) * 2 - 1 in
          let y := (1 - palmY) * 2 - 1 in
          match nth_error landmarks 5, nth_error landmarks 17 with
          | Some p5, Some p17 =>
              let dx := Landmark.x p17 - Landmark.x p5 in
              let dy := Landmark.y p17 - Landmark.y p5 in
              let isRightHand := Rgtb dx 0 in
              let rawAngle := atan2 dy (Rabs dx) in
              let rotation := if isRightHand then rawAngle else - rawAngle in
              Some (mkHand gesture (Vec2.new x y) rotation)
          | _, _ => None
          end
      end
  end.

Definition onResults (active : bool) (results : Results) : Outcome :=
  if negb active then Skipped
  else
    match multiHandLandmarks results with
    | Some (landmarks :: _) =>
        match handPose landmarks with
        | Some s => Updated s
        | None => Threw
        end
    | Some [] | None => Updated defaultPose
    end.

(** The same hand seen in a mirror: every landmark's x becomes 1 - x. *)
Definition mirrorLandmark (p : Landmark.t) : Landmark.t :=
  Landmark.new (1 - Landmark.x p) (Landmark.y p) (Landmark.z p).

Definition mirror (landmarks : list Landmark.t) : list Landmark.t :=
  map mirrorLandmark landmarks.

(** ** Math.random

    The generator's state is the stream of the outcomes still to come;
    each call of [Math.random()] takes the next one. *)

Definition Rand (A : Type) : Type := (nat -> R) -> A * (nat -> R).

Definition ret {A : Type} (a : A) : Rand A := fun s => (a, s).

Definition bind {A B : Type} (m : Rand A) (f : A -> Rand B) : Rand B :=
  fun s => let (a, s') := m s in f a s'.

Notation "x <- m ;; k" := (bind m (fun x => k))
  (at level 61, m at next level, right associativity).

Definition Math_random : Rand R :=
  fun s => (s 0%nat, fun n => s (S n)).

(** Every outcome of [Math.random()] lies in [0, 1). *)
Definition unitDraws (s : nat -> R) : Prop := forall n, 0 <= s n < 1.

(** [for (let i = start; ...; i++) particles.push(body(i))], [count] times. *)
Fixpoint forLoop {A : Type} (body : nat -> Rand A) (i count : nat)
  : Rand (list A) :=
  match count with
  | O => ret []
  | S count' =>
      a <- body i ;;
      rest <- forLoop body (S i) count' ;;
      ret (a :: rest)
  end.

(** [Math.cbrt] *)
Definition cbrt (x : R) : R :=
  if Rlt_dec 0 x then exp (ln x / 3)
  else if Rlt_dec x 0 then - exp (ln (- x) / 3)
  else 0.

(** ** utils/geometry.ts: the particle generator *)

Section Generator.

(** [generateUUID] renders one draw in base 36 and appends the clock;
    the text it makes of a draw is left open. *)
Variable uuidText : R -> string.

Definition generateUUID : Rand string :=
  d <- Math_random ;; ret (uuidText d).

Definition turns : R := 75 / 10.
Definition FILLER_COUNT : nat := 1200.
Definition MAIN_COUNT : nat := PARTICLE_COUNT - FILLER_COUNT.

Definition scatterSample : Rand Vector3.t :=
  rx <- Math_random ;;
  ry <- Math_random ;;
  rz <- Math_random ;;
  ret (Vector3.new ((rx - 5 / 10) * SCATTER_BOUNDS)
                   ((ry - 5 / 10) * SCATTER_BOUNDS)
                   ((rz - 5 / 10) * SCATTER_BOUNDS)).

(** One pass of the main-spiral loop, for index [i] of [count]. *)
Definition mainParticle (count i : nat) : Rand ParticleData :=
  let height := TREE_HEIGHT in
  let baseRadius := TREE_RADIUS_BASE in
  let t := INR i / INR count in
  let angle := t * PI * 2 * turns in
  let yBase := - height / 2 + t * height in
  let spiralRadius := MathUtils.lerp baseRadius (1 / 10) t in
  let cx := cos angle * spiralRadius in
  let cz := sin angle * spiralRadius in
  let tubeRadius := MathUtils.lerp (9 / 10) (3 / 10) t in
  u <- Math_random ;;
  v <- Math_random ;;
  let theta := 2 * PI * u in
  let phi := acos (2 * v - 1) in
  c <- Math_random ;;
  let r := cbrt c * tubeRadius * (9 / 10) in
  let ox := r * sin phi * cos theta in
  let oy := r * sin phi * sin theta in
  let oz := r * cos phi in
  let xTree := cx + ox in
  let yTree := yBase + oy * (6 / 10) in
  let zTree := cz + oz in
  scatter <- scatterSample ;;
  rand <- Math_random ;;
  b <- Math_random ;;
  let '(type, color, baseScale) :=
    if Rlt_dec rand (55 / 100) then
      (CUBE, COLORS.GREEN, b * (8 / 100) + 20 / 100)
    else if Rlt_dec rand (70 / 100) then
      (SPHERE, COLORS.RED, b * (15 / 100) + 30 / 100)
    else if Rlt_dec rand (80 / 100) then
      (LIGHT, COLORS.LIGHT, b * (3 / 100) + 4 / 100)
    else
      (SPHERE, COLORS.GOLD, b * (15 / 100) + 25 / 100) in
  let finalScale :=
    if negb (ParticleType_eqb type LIGHT)
    then baseScale * MathUtils.lerp 1 (5 / 10) t
    else baseScale in
  uuid <- generateUUID ;;
  ret (mkParticle uuid (Vector3.new xTree yTree zTree) scatter
                  type color finalScale).

(** One pass of the core-filler loop. *)
Definition fillerParticle : Rand ParticleData :=
  let height := TREE_HEIGHT in
  let baseRadius := TREE_RADIUS_BASE in
  t <- Math_random ;;
  let heightPos := - height / 2 + t * height in
  let maxRadiusAtHeight := MathUtils.lerp baseRadius (1 / 10) t * (7 / 10) in
  r0 <- Math_random ;;
  let r := sqrt r0 * maxRadiusAtHeight in
  a <- Math_random ;;
  let theta := a * 2 * PI in
  let x := r * cos theta in
  let z := r * sin theta in
  j <- Math_random ;;
  let y := heightPos + (j - 5 / 10) * (5 / 10) in
  scatter <- scatterSample ;;
  k <- Math_random ;;
  let isRed := Rgtb k (5 / 10) in
  uuid <- generateUUID ;;
  sc <- Math_random ;;
  ret (mkParticle uuid (Vector3.new x y z) scatter SPHERE
                  (if isRed then COLORS.RED else COLORS.GOLD)
                  ((sc * (5 / 100) + 8 / 100) * MathUtils.lerp 1 (5 / 10) t)).

Definition mainSpiral : Rand (list ParticleData) :=
  forLoop (mainParticle MAIN_COUNT) 0 MAIN_COUNT.

Definition coreFillers : Rand (list ParticleData) :=
  forLoop (fun _ => fillerParticle) 0 FILLER_COUNT.

Definition generateParticles : Rand (list ParticleData) :=
  main <- mainSpiral ;;
  fillers <- coreFillers ;;
  ret (main ++ fillers).

End Generator.

(** ** Particles: the per-frame easing of a particle *)

Definition PARTICLE_RATE : R := 3.

(** [dummy.position.lerp(getTargetPosition(particle, appState), 3 * delta)] *)
Definition particleFrame (particle : ParticleData) (appState : AppState)
    (delta : R) (position : Vector3.t) : Vector3.t :=
  let step := PARTICLE_RATE * delta in
  let target := getTargetPosition particle appState in
  Vector3.lerp position target step.

(** ** PhotoCloud: the photo panels *)

Record Camera : Type := mkCamera {
  camera_position : Vector3.t;
  camera_quaternion : Quaternion.t
}.

(** What [useFrame] resolves before easing: [targetPos], [targetScale]
    and [targetRot]. *)
Record Target : Type := mkTarget {
  targetPos : Vector3.t;
  targetScale : R;
  targetRot : Quaternion.t
}.

(** The values a panel memoises when it is mounted. *)
Definition randomPos : Rand Vector3.t := scatterSample.

Definition treePos (index total : nat) : Rand Vector3.t :=
  let t := 15 / 100 + (INR index / INR total) * (7 / 10) in
  j <- Math_random ;;
  let tRand := MathUtils.clamp (t + (j - 5 / 10) * (1 / 10)) (1 / 10) (9 / 10) in
  let angle := tRand * PI * 2 * turns in
  let height := TREE_HEIGHT in
  let baseRadius := TREE_RADIUS_BASE in
  let y := - height / 2 + tRand * height in
  let spiralRadius := MathUtils.lerp baseRadius (1 / 10) tRand in
  let tubeRadius := MathUtils.lerp (9 / 10) (3 / 10) tRand in
  let distanceFromCenter := spiralRadius + tubeRadius * (9 / 10) in
  ret (Vector3.new (cos angle * distanceFromCenter) y
                   (sin angle * distanceFromCenter)).

Record Panel : Type := mkPanel {
  panel_index : nat;
  panel_treePos : Vector3.t;
  panel_randomPos : Vector3.t
}.

(** Mounting the panel of photo [index] of [total]: the two [useMemo]
    values are drawn once, [randomPos] first. *)
Definition mountPanel (index total : nat) : Rand Panel :=
  rp <- randomPos ;;
  tp <- treePos index total ;;
  ret (mkPanel index tp rp).

(** The first half of [PolaroidFrame]'s [useFrame]: the target. *)
Definition resolveTarget (panel : Panel) (appState : AppState)
    (isFocused : bool) (camera : Camera) (elapsedTime : R) : Target :=
  if isFocused then
    let dist := 5 in
    let forward :=
      Quaternion.applyTo (Vector3.new 0 0 (-1)) (camera_quaternion camera) in
    let up :=
      Quaternion.applyTo (Vector3.new 0 1 0) (camera_quaternion camera) in
    mkTarget
      (Vector3.add
         (Vector3.add (camera_position camera)
                      (Vector3.multiplyScalar forward dist))
         (Vector3.multiplyScalar up (8 / 10)))
      (25 / 10)
      (camera_quaternion camera)
  else if AppState_eqb appState SCATTERED then
    mkTarget (panel_randomPos panel) 1
             (Quaternion.setFromEuler 0 (elapsedTime * (1 / 10)) 0)
  else
    let tp := panel_treePos panel in
    let angleToCenter := atan2 (Vector3.x tp) (Vector3.z tp) in
    let tilt := sin (INR (panel_index panel) * 123) * (1 / 10) in
    mkTarget tp (65 / 100)
             (Quaternion.setFromEuler
                tilt angleToCenter
                (sin (elapsedTime + INR (panel_index panel)) * (5 / 100))).

(** [PhotoCloud]: the flag each panel is rendered with. *)
Definition isFocused (appState : AppState) (index : nat) (activeIndex : Z)
  : bool :=
  AppState_eqb appState FOCUSED && (Z.of_nat index =? activeIndex)%Z.

Definition panelTarget (panel : Panel) (appState : AppState)
    (activeIndex : Z) (camera : Camera) (elapsedTime : R) : Target :=
  resolveTarget panel appState
                (isFocused appState (panel_index panel) activeIndex)
                camera elapsedTime.



(** ** The scene driven by a trace of events

    Between two renders one of three things happens: the hand controller
    delivers a gesture (the effect runs), a frame is drawn (the photo
    switch runs with the clock and the hand's roll), or the user uploads
    a photo (photos are appended, never removed). *)

Inductive Event : Type :=
  | GestureEvent (g : GestureType)
  | FrameEvent (time rot : R)
  | UploadEvent.

Record World : Type := mkWorld {
  scene : SceneState;
  photos_length : nat
}.

Definition initialWorld : World := mkWorld initialScene 0.

Definition react (w : World) (e : Event) : World :=
  match e with
  | GestureEvent g =>
      mkWorld (gestureUpdate g (photos_length w) (scene w)) (photos_length w)
  | FrameEvent time rot =>
      mkWorld (photoSwitch (photos_length w) time rot (scene w))
              (photos_length w)
  | UploadEvent => mkWorld (scene w) (S (photos_length w))
  end.

Definition run (events : list Event) (w : World) : World :=
  fold_left react events w.

(** ** The classifier in the specification's words

    The extension test and the finger count, read off the landmark
    indices the specification names (tips 8/12/16/20, PIP joints
    6/10/14/18, wrist 0), to state what [detectGesture] computes. *)

Definition landmarkAt (landmarks : list Landmark.t) (i : nat) : Landmark.t :=
  nth i landmarks (Landmark.new 0 0 0).

Definition spec_fingers : list (nat * nat) :=
  [(8, 6); (12, 10); (16, 14); (20, 18)]%nat.

Definition spec_extended (landmarks : list Landmark.t) (finger : nat * nat)
  : bool :=
  let (tip, pip) := finger in
  Rgtb (dist (landmarkAt landmarks tip) (landmarkAt landmarks 0))
       (dist (landmarkAt landmarks pip) (landmarkAt landmarks 0) + 5 / 100).

Definition spec_extendedCount (landmarks : list Landmark.t) : nat :=
  List.length (filter (spec_extended landmarks) spec_fingers).

(** A synthetic hand: every landmark in the column x = 0.5, the wrist and
    the thumb at y = 0.9, the PIP joints at y = 0.5 and the four finger
    tips at y = [tipY]. *)
Definition syntheticHand (tipY : R) : list Landmark.t :=
  map (fun i : nat =>
         Landmark.new (5 / 10)
           (if existsb (Nat.eqb i) [8; 12; 16; 20]%nat then tipY
            else if existsb (Nat.eqb i) [6; 10; 14; 18]%nat then 5 / 10
            else 9 / 10)
           0)
      (seq 0 21).

(** The validity of the active index in a world. *)
Definition indexValid (w : World) : Prop :=
  (0 <= activeIndex (scene w))%Z /\
  (activeIndex (scene w) < Z.max 1 (Z.of_nat (photos_length w)))%Z.

(** FOCUSED is only ever entered with a photo to show. *)
Definition focusedHasPhotos (w : World) : Prop :=
  appState (scene w) = FOCUSED -> (0 < photos_length w)%nat.

(** A right hand tilted by 45 degrees, and its mirror image. *)
Definition tiltedHand : list Landmark.t :=
  map (fun i : nat =>
         if Nat.eqb i 17 then Landmark.new (6 / 10) (6 / 10) 0
         else Landmark.new (5 / 10) (5 / 10) 0)
      (seq 0 21).

(** ** Properties of draws and of easing steps *)

(** Every outcome still to come satisfies [P]. *)
Definition drawsAll (P : R -> Prop) (s : nat -> R) : Prop := forall n, P (s n).



(** ** Sample data *)

Definition origin : Vector3.t := Vector3.new 0 0 0.

Definition sampleParticle : ParticleData :=
  mkParticle "p" (Vector3.new 1 0 0) (Vector3.new 7 7 7) SPHERE COLORS.GOLD
             (3 / 10).


Definition sampleCamera : Camera :=
  mkCamera (Vector3.new 0 0 10) Quaternion.identity.

Definition zeroDraws : nat -> R := fun _ => 0.
Definition constDraws (v : R) : nat -> R := fun _ => v.
Definition noText : R -> string := fun _ => EmptyString.

(** The second of two photo panels, mounted with every draw 3/4. *)
Definition samplePanel : Panel := fst (mountPanel 1 2 (constDraws (3 / 4))).

(* ================================================================== *)
(** * Part I, continued: the rest of the components                     *)
(* ================================================================== *)

(** ** Particles: the three instanced meshes and the twinkle *)

(** [data.filter(d => d.type === ...)]: the particles of each mesh. *)
Definition spheres (data : list ParticleData) : list ParticleData :=
  filter (fun d => ParticleType_eqb (type d) SPHERE) data.

Definition cubes (data : list ParticleData) : list ParticleData :=
  filter (fun d => ParticleType_eqb (type d) CUBE) data.

Definition lights (data : list ParticleData) : list ParticleData :=
  filter (fun d => ParticleType_eqb (type d) LIGHT) data.

(** [s.charCodeAt(0)]: NaN ([None]) on the empty string. *)
Definition charCodeAt0 (s : string) : option nat :=
  match s with
  | EmptyString => None
  | String c _ => Some (Ascii.nat_of_ascii c)
  end.

(** The scale a twinkle light is drawn with at [time]:
    [particle.scale * (0.8 + pulse * 1.5)] with
    [pulse = Math.pow(Math.sin(time * 5 + particle.id.charCodeAt(0)), 4)];
    [None] is NaN. *)
Definition lightScale (particle : ParticleData) (time : R) : option R :=
  match charCodeAt0 (id particle) with
  | None => None
  | Some code =>
      let pulse := (sin (time * 5 + INR code)) ^ 4 in
      Some (scale particle * (8 / 10 + pulse * (15 / 10)))
  end.

(** ** Scene: the star on top ([StarShape]) *)

Definition starTargetScale (appState : AppState) : R :=
  if AppState_eqb appState ASSEMBLED then 1 else 1 / 100.

(** One frame of the star: [MathUtils.lerp(currentScale, targetScale, 0.1)]. *)
Definition starFrame (appState : AppState) (currentScale : R) : R :=
  MathUtils.lerp currentScale (starTargetScale appState) (1 / 10).

(** The star's scale after one frame in each of the modes of [modes]. *)
Definition starFrames (modes : list AppState) (currentScale : R) : R :=
  fold_left (fun sc m => starFrame m sc) modes currentScale.

(** ** Scene: the orbit targets of the hand in SCATTERED *)

Definition targetAzimuth (handPosition : Vec2.t) : R :=
  Vec2.x handPosition * PI.

Definition targetPolar (handPosition : Vec2.t) : R :=
  PI / 2 - Vec2.y handPosition * (5 / 10).

(** The limits [OrbitControls] is mounted with. *)
Definition minPolarAngle : R := PI / 3.
Definition maxPolarAngle : R := PI / (18 / 10).

(** ** Scene: a run of frames of the photo switch *)

Definition photoFrames (photos_length : nat) (frames : list (R * R))
    (s : SceneState) : SceneState :=
  fold_left (fun st (f : R * R) => photoSwitch photos_length (fst f) (snd f) st)
            frames s.

(** ** HandController: a hand moved in the image *)

Definition translateLandmark (a b : R) (p : Landmark.t) : Landmark.t :=
  Landmark.new (Landmark.x p + a) (Landmark.y p + b) (Landmark.z p).

Definition translate (a b : R) (landmarks : list Landmark.t)
  : list Landmark.t :=
  map (translateLandmark a b) landmarks.

(** ** PhotoCloud: the flags of all panels *)

(** [photos.map((photo, index) => ... isFocused = ...)] *)
Definition focusFlags (photos_length : nat) (appState : AppState)
    (activeIndex : Z) : list bool :=
  map (fun index => isFocused appState index activeIndex)
      (seq 0 photos_length).

(** [renderOrder = isFocused ? 999 : 1] *)
Definition renderOrder (focused : bool) : nat :=
  if focused then 999 else 1.

Definition quaternionNorm2 (q : Quaternion.t) : R :=
  Quaternion.x q * Quaternion.x q + Quaternion.y q * Quaternion.y q
  + Quaternion.z q * Quaternion.z q + Quaternion.w q * Quaternion.w q.

Definition distance2 (a b : Vector3.t) : R :=
  (Vector3.x a - Vector3.x b) * (Vector3.x a - Vector3.x b)
  + (Vector3.y a - Vector3.y b) * (Vector3.y a - Vector3.y b)
  + (Vector3.z a - Vector3.z b) * (Vector3.z a - Vector3.z b).

(** ** MusicPlayer: [handleTimeUpdate] *)

Definition phrases : list string :=
  ["Spark and shine..."; "It's Christmastime..."; "Joy to the world...";
   "Let it glow..."; "Happy Holidays!"]%string.

(** [Math.floor] *)
Definition floor (r : R) : Z := Int_part r.

(** [arr[i]] for an integer [i]: [undefined] ([None]) outside the array. *)
Definition at_index {A : Type} (l : list A) (i : Z) : option A :=
  if (i <? 0)%Z then None else nth_error l (Z.to_nat i).

(** [audio.duration || 1]: the duration is NaN ([None]) until the
    metadata is loaded; NaN and 0 are falsy. *)
Definition durationOr1 (duration : option R) : R :=
  match duration with
  | None => 1
  | Some d => if Req_dec_T d 0 then 1 else d
  end.

(** The progress (in percent) and the lyric it sets. *)
Definition handleTimeUpdate (current : R) (duration : option R)
  : R * option string :=
  let d := durationOr1 duration in
  let progress := current / d * 100 in
  let index := Z.rem (floor (current / 4)) (Z.of_nat (List.length phrases)) in
  (progress, at_index phrases index).

(** ** App: [handleFileUpload] *)

Section Upload.

Variable File : Type.
Variable createObjectURL : File -> string.
Variable uuidText : R -> string.

(** One [setPhotos((prev) => [...prev, { id, url, aspectRatio: 1 }])]. *)
Definition addPhoto (prev : list PhotoData) (file : File)
  : Rand (list PhotoData) :=
  uuid <- generateUUID uuidText ;;
  ret (prev ++ [mkPhoto uuid (createObjectURL file) 1]).

Fixpoint addPhotos (files : list File) (prev : list PhotoData)
  : Rand (list PhotoData) :=
  match files with
  | [] => ret prev
  | file :: rest => next <- addPhoto prev file ;; addPhotos rest next
  end.

(** [event.target.files] may be [null]: nothing happens then. *)
Definition handleFileUpload (files : option (list File))
    (photos : list PhotoData) : Rand (list PhotoData) :=
  match files with
  | None => ret photos
  | Some fs => addPhotos fs photos
  end.

End Upload.

(** ** GiftFloor *)

Module GIFTS.
Definition GIFT_1 : string := "#C41E3A".
Definition GIFT_2 : string := "#165B33".
Definition GIFT_3 : string := "#D4AF37".
Definition GIFT_4 : string := "#F8F9FA".
Definition GIFT_5 : string := "#4169E1".
End GIFTS.

Definition giftColors : list string :=
  [GIFTS.GIFT_1; GIFTS.GIFT_2; GIFTS.GIFT_3; GIFTS.GIFT_4; GIFTS.GIFT_5].

Definition GIFT_COUNT : nat := 40.

(** Slightly above floor to avoid z-fighting. *)
Definition floorY : R := - TREE_HEIGHT / 2 + 4 / 10.

(** What one pass of the loop sets for a gift box (a unit cube, scaled). *)
Record Gift : Type := mkGift {
  gift_position : Vector3.t;
  gift_rotY : R;
  gift_scale : R;
  gift_color : option string
}.

Definition giftBox : Rand Gift :=
  a <- Math_random ;;
  let angle := a * PI * 2 in
  l <- Math_random ;;
  let radius :=
    MathUtils.lerp (TREE_RADIUS_BASE * (4 / 10)) (TREE_RADIUS_BASE * (12 / 10))
                   l in
  let x := cos angle * radius in
  let z := sin angle * radius in
  ry <- Math_random ;;
  let rotY := ry * PI in
  b <- Math_random ;;
  let baseScale := b * (5 / 10) + 5 / 10 in
  let scale := baseScale * (133 / 100) in
  c <- Math_random ;;
  let colorHex :=
    at_index giftColors (floor (c * INR (List.length giftColors))) in
  ret (mkGift (Vector3.new x (floorY + (scale * (5 / 10) - 5 / 10)) z)
              rotY scale colorHex).

Definition GiftFloor : Rand (list Gift) :=
  forLoop (fun _ => giftBox) 0 GIFT_COUNT.

(** The height of the bottom face of a gift: a unit cube scaled by
    [gift_scale] around [gift_position]. *)
Definition giftBottom (g : Gift) : R :=
  Vector3.y (gift_position g) - gift_scale g / 2.

(** ** Predicates on generated particles *)

(** Inside the cube of half-width SCATTER_BOUNDS / 2. *)
Definition inScatterCube (v : Vector3.t) : Prop :=
  - (SCATTER_BOUNDS / 2) <= Vector3.x v < SCATTER_BOUNDS / 2 /\
  - (SCATTER_BOUNDS / 2) <= Vector3.y v < SCATTER_BOUNDS / 2 /\
  - (SCATTER_BOUNDS / 2) <= Vector3.z v < SCATTER_BOUNDS / 2.

(** The looks the generator hands out: green cubes, red or gold
    spheres, and lights in the light colour. *)
Definition coherentLook (p : ParticleData) : Prop :=
  (type p = CUBE /\ color p = COLORS.GREEN) \/
  (type p = SPHERE /\ (color p = COLORS.RED \/ color p = COLORS.GOLD)) \/
  (type p = LIGHT /\ color p = COLORS.LIGHT).

(** The squared distance of a point from the tree's axis. *)
Definition axisDistance2 (v : Vector3.t) : R :=
  Vector3.x v * Vector3.x v + Vector3.z v * Vector3.z v.

(** ** Conditions on a run of frames *)

(** Every frame comes more than the cooldown after the one before it,
    the first one after [last]. *)
Fixpoint spaced (last : R) (frames : list (R * R)) : Prop :=
  match frames with
  | [] => True
  | f :: rest => COOLDOWN < fst f - last /\ spaced (fst f) rest
  end.

(** [n] frames, one per second, all with the roll [rot]. *)
Definition steadyFrames (rot : R) (n : nat) : list (R * R) :=
  map (fun k => (INR k, rot)) (seq 1 n).

(* ================================================================== *)
(** * Part II: properties                                               *)
(* ================================================================== *)

(** ** Scene mode state machine *)

Lemma applySets_nil {A : Type} (a : A) : applySets [] a = a.
Proof. reflexivity. Qed.

Lemma applySets_last {A : Type} (calls : list A) (v a : A) :
  applySets (calls ++ [v]) a = v.
Proof. unfold applySets. rewrite fold_left_app. reflexivity. Qed.

(** The effect calls [setAppState] at most once per run, so no render
    ever sees two competing modes. *)
Lemma gestureEffect_at_most_one_call g m n :
  (List.length (gestureEffect g m n) <= 1)%nat.
Proof.
  destruct g, m, n; simpl; lia.
Qed.

(** C1: one gesture update maps the mode as the transition table says:
    FIST gives ASSEMBLED from any mode; OPEN_PALM gives SCATTERED from
    ASSEMBLED and from FOCUSED; PINCH gives FOCUSED from SCATTERED when
    there is at least one photo; every other combination keeps the mode.
    The active photo index (and the switch timer) are never touched. *)
Theorem gestureUpdate_transition (g : GestureType) (n : nat) (s : SceneState) :
  appState (gestureUpdate g n s) =
    match g, appState s with
    | FIST, _ => ASSEMBLED
    | OPEN_PALM, ASSEMBLED => SCATTERED
    | OPEN_PALM, FOCUSED => SCATTERED
    | OPEN_PALM, SCATTERED => SCATTERED
    | PINCH, SCATTERED => if (0 <? n)%nat then FOCUSED else SCATTERED
    | PINCH, ASSEMBLED => ASSEMBLED
    | PINCH, FOCUSED => FOCUSED
    | NONE, m => m
    end
  /\ activeIndex (gestureUpdate g n s) = activeIndex s
  /\ lastSwitchTime (gestureUpdate g n s) = lastSwitchTime s.
Proof.
  destruct s as [m i l]; split; [|split; reflexivity].
  destruct g, m; simpl; try reflexivity.
  destruct n; reflexivity.
Qed.

(** The effect depends on the mode it sets, so it runs once more after a
    change; that second run changes nothing. *)
Lemma gestureUpdate_idempotent g n s :
  gestureUpdate g n (gestureUpdate g n s) = gestureUpdate g n s.
Proof.
  destruct s as [m i l], g, m; try reflexivity;
    unfold gestureUpdate; simpl; destruct n; reflexivity.
Qed.

Example FIST_then_PALM_then_PINCH :
  let w := run [UploadEvent; GestureEvent FIST; GestureEvent OPEN_PALM;
                GestureEvent PINCH] initialWorld in
  appState (scene w) = FOCUSED /\ activeIndex (scene w) = 0%Z.
Proof. split; reflexivity. Qed.

Example PINCH_without_photos :
  appState (gestureUpdate PINCH 0 (mkScene SCATTERED 0%Z 0)) = SCATTERED.
Proof. reflexivity. Qed.

(** ** Layout resolver *)

(** C2: the resolver is a function of the particle and the mode alone:
    the tree position in ASSEMBLED, the scatter position in SCATTERED and
    in FOCUSED. *)
Theorem getTargetPosition_resolves (p : ParticleData) :
  getTargetPosition p ASSEMBLED = initialPos p /\
  getTargetPosition p SCATTERED = scatterPos p /\
  getTargetPosition p FOCUSED = scatterPos p.
Proof. repeat split. Qed.

(** The resolver reads two fields only: particles that agree on them
    resolve alike, whatever else differs. *)
Lemma getTargetPosition_reads_positions_only p q m :
  initialPos p = initialPos q -> scatterPos p = scatterPos q ->
  getTargetPosition p m = getTargetPosition q m.
Proof. intros Hi Hs. destruct m; unfold getTargetPosition; simpl; congruence. Qed.

(** ** Photo carousel *)

Lemma rem_prev_in_range (i n : Z) :
  (0 <= i < n)%Z ->
  (Z.rem (i - 1 + n) n = (i - 1) mod n /\ 0 <= Z.rem (i - 1 + n) n < n)%Z.
Proof.
  intros H.
  assert (Hr : Z.rem (i - 1 + n) n = ((i - 1 + n) mod n)%Z)
    by (apply Z.rem_mod_nonneg; lia).
  rewrite Hr.
  replace (i - 1 + n)%Z with (i - 1 + 1 * n)%Z by lia.
  rewrite Z.mod_add by lia.
  split; [reflexivity | apply Z.mod_pos_bound; lia].
Qed.

Lemma rem_next_in_range (i n : Z) :
  (0 <= i < n)%Z ->
  (Z.rem (i + 1) n = (i + 1) mod n /\ 0 <= Z.rem (i + 1) n < n)%Z.
Proof.
  intros H.
  rewrite Z.rem_mod_nonneg by lia.
  split; [reflexivity | apply Z.mod_pos_bound; lia].
Qed.

Lemma prev_changes (i n : Z) :
  (0 <= i < n)%Z -> (1 < n)%Z -> ((i - 1) mod n <> i)%Z.
Proof.
  intros H Hn.
  destruct (Z.eq_dec i 0) as [-> | Hi].
  - replace (0 - 1)%Z with (n - 1 + (-1) * n)%Z by lia.
    rewrite Z.mod_add, Z.mod_small by lia. lia.
  - rewrite Z.mod_small by lia. lia.
Qed.

Lemma next_changes (i n : Z) :
  (0 <= i < n)%Z -> (1 < n)%Z -> ((i + 1) mod n <> i)%Z.
Proof.
  intros H Hn.
  destruct (Z.eq_dec i (n - 1)) as [-> | Hi].
  - replace (n - 1 + 1)%Z with (0 + 1 * n)%Z by lia.
    rewrite Z.mod_add, Z.mod_small by lia. lia.
  - rewrite Z.mod_small by lia. lia.
Qed.

(** Outside FOCUSED, or with at most one photo, a frame leaves the
    carousel alone. *)
Lemma photoSwitch_idle n time rot s :
  appState s <> FOCUSED \/ (n <= 1)%nat -> photoSwitch n time rot s = s.
Proof.
  intros [Hm | Hn]; unfold photoSwitch.
  - destruct (appState s); try reflexivity. contradiction.
  - replace (1 <? n)%nat with false by (symmetry; apply Nat.ltb_ge; exact Hn).
    rewrite andb_false_r. reflexivity.
Qed.

Lemma photoSwitch_keeps_mode n time rot s :
  appState (photoSwitch n time rot s) = appState s.
Proof.
  unfold photoSwitch.
  destruct (AppState_eqb (appState s) FOCUSED && (1 <? n)%nat); [|reflexivity].
  destruct (Rlt_dec COOLDOWN (time - lastSwitchTime s)); [|reflexivity].
  destruct (Rlt_dec rot (- THRESHOLD)); [reflexivity|].
  destruct (Rlt_dec THRESHOLD rot); reflexivity.
Qed.

(** A frame never takes a valid index out of range, in any mode. *)
Lemma photoSwitch_index_range n time rot s :
  (0 <= activeIndex s < Z.of_nat n)%Z ->
  (0 <= activeIndex (photoSwitch n time rot s) < Z.of_nat n)%Z.
Proof.
  intros Hi. unfold photoSwitch.
  destruct (AppState_eqb (appState s) FOCUSED && (1 <? n)%nat); [|exact Hi].
  destruct (Rlt_dec COOLDOWN (time - lastSwitchTime s)); [|exact Hi].
  destruct (Rlt_dec rot (- THRESHOLD)).
  - apply rem_prev_in_range, Hi.
  - destruct (Rlt_dec THRESHOLD rot); [|exact Hi].
    apply rem_next_in_range, Hi.
Qed.

(** C4: in FOCUSED with more than one photo, a frame whose clock is more
    than 0.8 s past the last switch steps the index back (roll below
    -0.4) or forward (roll above +0.4) modulo the photo count and resets
    the timer; any other frame changes nothing.  Hence a change implies
    that at least 0.8 s have passed, and the index stays in
    [0, panelCount). *)
Theorem photoSwitch_carousel (n : nat) (time rot : R) (s : SceneState) :
  appState s = FOCUSED ->
  (1 < n)%nat ->
  (0 <= activeIndex s < Z.of_nat n)%Z ->
  let s' := photoSwitch n time rot s in
  let elapsed := time - lastSwitchTime s in
  (elapsed > 8 / 10 /\ rot < - (4 / 10) ->
     activeIndex s' = ((activeIndex s - 1) mod Z.of_nat n)%Z /\
     activeIndex s' <> activeIndex s /\
     lastSwitchTime s' = time) /\
  (elapsed > 8 / 10 /\ rot > 4 / 10 ->
     activeIndex s' = ((activeIndex s + 1) mod Z.of_nat n)%Z /\
     activeIndex s' <> activeIndex s /\
     lastSwitchTime s' = time) /\
  (elapsed <= 8 / 10 \/ - (4 / 10) <= rot <= 4 / 10 -> s' = s) /\
  (activeIndex s' <> activeIndex s ->
     elapsed >= 8 / 10 /\ lastSwitchTime s' = time) /\
  (0 <= activeIndex s' < Z.of_nat n)%Z.
Proof.
  intros Hm Hn Hi s' elapsed.
  assert (HnZ : (1 < Z.of_nat n)%Z) by lia.
  destruct (rem_prev_in_range _ _ Hi) as [Hp Hpr].
  destruct (rem_next_in_range _ _ Hi) as [Hx Hxr].
  pose proof (prev_changes _ _ Hi HnZ) as Hpc.
  pose proof (next_changes _ _ Hi HnZ) as Hxc.
  subst s' elapsed. unfold photoSwitch.
  rewrite Hm. simpl AppState_eqb.
  replace (1 <? n)%nat with true by (symmetry; apply Nat.ltb_lt; exact Hn).
  simpl andb. unfold COOLDOWN, THRESHOLD.
  destruct (Rlt_dec (8 / 10) (time - lastSwitchTime s)) as [Hc | Hc].
  - destruct (Rlt_dec rot (- (4 / 10))) as [Hl | Hl].
    + cbn [activeIndex lastSwitchTime]. rewrite Hp.
      repeat split; intros; try lra; try lia; try congruence;
        try (exfalso; lra).
    + destruct (Rlt_dec (4 / 10) rot) as [Hr | Hr].
      * cbn [activeIndex lastSwitchTime]. rewrite Hx.
        repeat split; intros; try lra; try lia; try congruence;
          try (exfalso; lra).
      * repeat split; intros; try lra; try lia; try congruence.
  - repeat split; intros; try lra; try lia; try congruence.
Qed.

(** The spec's example: index 0 of 3, roll -0.5, cooldown over: index 2. *)
Lemma photoSwitch_carousel_witness :
  activeIndex (mkScene FOCUSED 0%Z 0) = 0%Z /\
  activeIndex (photoSwitch 3 1 (- (5 / 10)) (mkScene FOCUSED 0%Z 0)) = 2%Z /\
  lastSwitchTime (photoSwitch 3 1 (- (5 / 10)) (mkScene FOCUSED 0%Z 0)) = 1.
Proof.
  assert (Hi : (0 <= activeIndex (mkScene FOCUSED 0%Z 0) < Z.of_nat 3)%Z)
    by (simpl; lia).
  assert (Hn : (1 < 3)%nat) by lia.
  destruct (photoSwitch_carousel 3 1 (- (5 / 10)) (mkScene FOCUSED 0%Z 0)
              eq_refl Hn Hi) as [Hprev _].
  assert (Hgo : 1 - lastSwitchTime (mkScene FOCUSED 0%Z 0) > 8 / 10 /\
                - (5 / 10) < - (4 / 10)) by (simpl; lra).
  destruct (Hprev Hgo) as [Hidx [_ Ht]].
  split; [reflexivity | split; [rewrite Hidx; reflexivity | exact Ht]].
Defined.

(** Whatever the gestures, frames and uploads, the active index is a
    valid photo index as soon as there is a photo (and 0 before). *)
Lemma react_preserves_indexValid w e : indexValid w -> indexValid (react w e).
Proof.
  unfold indexValid. intros [H0 H1].
  destruct e as [g | time rot | ]; cbn [react scene photos_length].
  - cbn [gestureUpdate activeIndex]. lia.
  - destruct (Nat.ltb_spec 1 (photos_length w)) as [Hn | Hn].
    + assert (Hi : (0 <= activeIndex (scene w) < Z.of_nat (photos_length w))%Z)
        by lia.
      pose proof (photoSwitch_index_range _ time rot _ Hi). lia.
    + rewrite photoSwitch_idle by (right; lia). lia.
  - lia.
Qed.

Lemma run_preserves_indexValid events :
  forall w, indexValid w -> indexValid (run events w).
Proof.
  induction events as [| e events IH]; intros w Hw; [exact Hw|].
  apply IH, react_preserves_indexValid, Hw.
Qed.

Corollary activeIndex_always_valid events :
  indexValid (run events initialWorld).
Proof. apply run_preserves_indexValid. unfold indexValid. simpl. lia. Qed.

Lemma react_preserves_focusedHasPhotos w e :
  focusedHasPhotos w -> focusedHasPhotos (react w e).
Proof.
  unfold focusedHasPhotos. intros Hw.
  destruct e as [g | time rot | ]; cbn [react scene photos_length].
  - destruct w as [[m i l] n]. cbn [scene photos_length appState] in *.
    destruct g, m, n; cbn; intros H; try discriminate H; try lia;
      apply Hw; reflexivity.
  - rewrite photoSwitch_keeps_mode. exact Hw.
  - intros _. lia.
Qed.

Lemma run_preserves_focusedHasPhotos events :
  forall w, focusedHasPhotos w -> focusedHasPhotos (run events w).
Proof.
  induction events as [| e events IH]; intros w Hw; [exact Hw|].
  apply IH, react_preserves_focusedHasPhotos, Hw.
Qed.

(** In every reachable world that is in FOCUSED mode the active index
    names one of the photos. *)
Corollary activeIndex_names_a_photo events :
  let w := run events initialWorld in
  appState (scene w) = FOCUSED ->
  (0 <= activeIndex (scene w) < Z.of_nat (photos_length w))%Z.
Proof.
  intros w Hm.
  pose proof (activeIndex_always_valid events) as [H0 H1].
  assert (Hn : (0 < photos_length w)%nat).
  { apply (run_preserves_focusedHasPhotos events initialWorld); [|exact Hm].
    intros H. discriminate H. }
  fold w in H0, H1. lia.
Qed.

(** ** Gesture classifier *)

Lemma hypot_nonneg a b : 0 <= hypot a b.
Proof. apply sqrt_pos. Qed.

Lemma hypot_0_0 : hypot 0 0 = 0.
Proof. unfold hypot. replace (0 * 0 + 0 * 0) with 0 by ring. apply sqrt_0. Qed.

Lemma hypot_0_l b : hypot 0 b = Rabs b.
Proof.
  unfold hypot. replace (0 * 0 + b * b) with (Rsqr b) by (unfold Rsqr; ring).
  apply sqrt_Rsqr_abs.
Qed.

Lemma hypot_opp_l a b : hypot (- a) b = hypot a b.
Proof. unfold hypot. f_equal. ring. Qed.

Lemma dist_self p : dist p p = 0.
Proof. unfold dist. rewrite !Rminus_diag. apply hypot_0_0. Qed.

Lemma dist_mirror p q : dist (mirrorLandmark p) (mirrorLandmark q) = dist p q.
Proof.
  unfold dist, mirrorLandmark. cbn [Landmark.x Landmark.y].
  replace (1 - Landmark.x p - (1 - Landmark.x q))
    with (- (Landmark.x p - Landmark.x q)) by ring.
  apply hypot_opp_l.
Qed.

Ltac twenty_one landmarks H :=
  do 21 (destruct landmarks as [| ? landmarks]; [discriminate H |]);
  destruct landmarks; [clear H | discriminate H].

Lemma countTrue_le_length l : (countTrue l <= List.length l)%nat.
Proof. apply filter_length_le. Qed.

(** C5: on 21 landmarks the classifier answers PINCH exactly when thumb
    tip and index tip are closer than 0.05; failing that, OPEN_PALM for
    three or four extended fingers, FIST for none or one, NONE for two. *)
Theorem detectGesture_classifies (landmarks : list Landmark.t) :
  List.length landmarks = 21%nat ->
  let pinchDist := dist (landmarkAt landmarks 4) (landmarkAt landmarks 8) in
  let extendedCount := spec_extendedCount landmarks in
  exists g,
    detectGesture landmarks = Some g /\
    (g = PINCH <-> pinchDist < 5 / 100) /\
    (pinchDist >= 5 / 100 ->
       ((3 <= extendedCount)%nat -> g = OPEN_PALM) /\
       ((extendedCount <= 1)%nat -> g = FIST) /\
       (extendedCount = 2%nat -> g = NONE)).
Proof.
  intros Hlen. twenty_one landmarks Hlen.
  unfold detectGesture, spec_extendedCount, spec_fingers, spec_extended,
    landmarkAt, countTrue, PINCH_DIST, EXTEND_MARGIN.
  cbn [nth_error nth filter].
  fold (dist t3 t7).
  destruct (Rlt_dec (dist t3 t7) (5 / 100)) as [Hp | Hp].
  - exists PINCH. split; [reflexivity|]. split; [tauto|]. intros; lra.
  - destruct (Rgtb (dist t7 t) (dist t5 t + 5 / 100)),
             (Rgtb (dist t11 t) (dist t9 t + 5 / 100)),
             (Rgtb (dist t15 t) (dist t13 t + 5 / 100)),
             (Rgtb (dist t19 t) (dist t17 t + 5 / 100));
      cbn [List.length Nat.leb];
      (eexists; split; [reflexivity|]; split;
       [split; [discriminate | intros; exfalso; lra]
       | intros _; repeat split; intros; try reflexivity; exfalso; lia]).
Qed.

Lemma detectGesture_classifies_witness :
  List.length (syntheticHand (3 / 10)) = 21%nat /\
  exists g,
    detectGesture (syntheticHand (3 / 10)) = Some g /\
    (g = PINCH <->
     dist (landmarkAt (syntheticHand (3 / 10)) 4)
          (landmarkAt (syntheticHand (3 / 10)) 8) < 5 / 100) /\
    (dist (landmarkAt (syntheticHand (3 / 10)) 4)
          (landmarkAt (syntheticHand (3 / 10)) 8) >= 5 / 100 ->
       ((3 <= spec_extendedCount (syntheticHand (3 / 10)))%nat ->
        g = OPEN_PALM) /\
       ((spec_extendedCount (syntheticHand (3 / 10)) <= 1)%nat -> g = FIST) /\
       (spec_extendedCount (syntheticHand (3 / 10)) = 2%nat -> g = NONE)).
Proof.
  split.
  - reflexivity.
  - exact (detectGesture_classifies (syntheticHand (3 / 10)) eq_refl).
Defined.

(** Thumb tip on index tip (distance exactly 0) is a pinch, whatever
    the other fingers do. *)
Lemma detectGesture_zero_distance_is_PINCH (landmarks : list Landmark.t) :
  List.length landmarks = 21%nat ->
  landmarkAt landmarks 4 = landmarkAt landmarks 8 ->
  detectGesture landmarks = Some PINCH.
Proof.
  intros Hlen. twenty_one landmarks Hlen.
  unfold landmarkAt. cbn [nth]. intros ->.
  unfold detectGesture. cbn [nth_error].
  rewrite !Rminus_diag, hypot_0_0.
  destruct (Rlt_dec 0 PINCH_DIST) as [_ | H]; [reflexivity|].
  exfalso. apply H. unfold PINCH_DIST. lra.
Qed.

Lemma dist_column p q :
  Landmark.x p = Landmark.x q -> dist p q = Rabs (Landmark.y p - Landmark.y q).
Proof.
  intros H. unfold dist. rewrite H, Rminus_diag. apply hypot_0_l.
Qed.

Ltac decide_Rlt :=
  repeat match goal with
  | |- context [Rlt_dec ?a ?b] =>
      let H := fresh in
      destruct (Rlt_dec a b) as [H | H];
      [ try (exfalso; revert H; unfold Rabs;
             repeat (destruct (Rcase_abs _)); intros; lra)
      | try (exfalso; apply H; unfold Rabs;
             repeat (destruct (Rcase_abs _)); lra) ]
  end.

(** Four stretched fingers are an open palm; four curled ones a fist. *)
Example syntheticHand_stretched :
  detectGesture (syntheticHand (3 / 10)) = Some OPEN_PALM.
Proof.
  unfold detectGesture, syntheticHand.
  cbn [map seq nth_error existsb Nat.eqb orb].
  rewrite !dist_column by reflexivity.
  unfold Rgtb, Rltb, PINCH_DIST, EXTEND_MARGIN.
  cbn [Landmark.x Landmark.y].
  rewrite !Rminus_diag, hypot_0_l.
  decide_Rlt. reflexivity.
Qed.

Example syntheticHand_curled :
  detectGesture (syntheticHand (5 / 10)) = Some FIST.
Proof.
  unfold detectGesture, syntheticHand.
  cbn [map seq nth_error existsb Nat.eqb orb].
  rewrite !dist_column by reflexivity.
  unfold Rgtb, Rltb, PINCH_DIST, EXTEND_MARGIN.
  cbn [Landmark.x Landmark.y].
  rewrite !Rminus_diag, hypot_0_l.
  decide_Rlt. reflexivity.
Qed.

(** ** Hand pose: position and roll *)

Lemma detectGesture_total (landmarks : list Landmark.t) :
  List.length landmarks = 21%nat -> exists g, detectGesture landmarks = Some g.
Proof.
  intros Hlen. twenty_one landmarks Hlen.
  unfold detectGesture. cbn [nth_error].
  destruct (Rlt_dec _ PINCH_DIST); [eexists; reflexivity|].
  destruct (3 <=? _)%nat; [eexists; reflexivity|].
  destruct (_ <=? 1)%nat; eexists; reflexivity.
Qed.

(** With 21 landmarks the handler's hand branch never throws, and the
    pose it builds reads landmarks 9, 5 and 17 as follows. *)
Lemma handPose_on_21 (landmarks : list Landmark.t) :
  List.length landmarks = 21%nat ->
  let palm := landmarkAt landmarks 9 in
  let dx := Landmark.x (landmarkAt landmarks 17)
            - Landmark.x (landmarkAt landmarks 5) in
  let dy := Landmark.y (landmarkAt landmarks 17)
            - Landmark.y (landmarkAt landmarks 5) in
  exists g,
    detectGesture landmarks = Some g /\
    handPose landmarks =
      Some (mkHand g
              (Vec2.new ((1 - Landmark.x palm) * 2 - 1)
                        ((1 - Landmark.y palm) * 2 - 1))
              (if Rgtb dx 0 then atan2 dy (Rabs dx)
               else - atan2 dy (Rabs dx))).
Proof.
  intros Hlen.
  destruct (detectGesture_total landmarks Hlen) as [g Hg].
  exists g. split; [exact Hg|].
  unfold handPose. rewrite Hg. clear Hg.
  twenty_one landmarks Hlen. reflexivity.
Qed.

Lemma landmarkAt_mirror (landmarks : list Landmark.t) (i : nat) :
  (i < List.length landmarks)%nat ->
  landmarkAt (mirror landmarks) i = mirrorLandmark (landmarkAt landmarks i).
Proof.
  intros Hi. unfold landmarkAt, mirror.
  rewrite (nth_indep _ _ (mirrorLandmark (Landmark.new 0 0 0)))
    by (rewrite length_map; exact Hi).
  apply map_nth.
Qed.

Lemma Rgtb_pos a : 0 < a -> Rgtb a 0 = true.
Proof.
  intros H. unfold Rgtb, Rltb. destruct (Rlt_dec 0 a); [reflexivity|lra].
Qed.

Lemma Rgtb_nonpos a : a <= 0 -> Rgtb a 0 = false.
Proof.
  intros H. unfold Rgtb, Rltb. destruct (Rlt_dec 0 a); [lra|reflexivity].
Qed.

(** With a positive second argument [atan2] is the arctangent of the
    quotient, an angle strictly between -PI/2 and PI/2. *)
Lemma atan2_pos y x : 0 < x -> atan2 y x = atan (y / x).
Proof. intros H. unfold atan2. destruct (Rlt_dec 0 x); [reflexivity|lra]. Qed.

(** C8: for a hand whose landmarks 5 and 17 differ in x, the emitted roll
    is atan2(dy, |dx|) of the vector from landmark 5 to landmark 17,
    negated exactly when dx < 0; the mirrored hand (x -> 1 - x) is
    emitted with the opposite roll of the same magnitude. *)
Theorem onResults_roll (landmarks : list Landmark.t)
    (others : list (list Landmark.t)) :
  List.length landmarks = 21%nat ->
  let dx := Landmark.x (landmarkAt landmarks 17)
            - Landmark.x (landmarkAt landmarks 5) in
  let dy := Landmark.y (landmarkAt landmarks 17)
            - Landmark.y (landmarkAt landmarks 5) in
  dx <> 0 ->
  exists pose pose',
    onResults true (mkResults (Some (landmarks :: others))) = Updated pose /\
    onResults true (mkResults (Some (mirror landmarks :: others)))
      = Updated pose' /\
    (forall active q,
       onResults active (mkResults (Some (landmarks :: others))) = Updated q ->
       q = pose) /\
    (0 < dx -> rotation pose = atan2 dy (Rabs dx)) /\
    (dx < 0 -> rotation pose = - atan2 dy (Rabs dx)) /\
    rotation pose' = - rotation pose /\
    Rabs (rotation pose') = Rabs (rotation pose).
Proof.
  intros Hlen dx dy Hdx.
  assert (Hlen' : List.length (mirror landmarks) = 21%nat)
    by (unfold mirror; rewrite length_map; exact Hlen).
  destruct (handPose_on_21 landmarks Hlen) as [g [_ Hp]].
  destruct (handPose_on_21 (mirror landmarks) Hlen') as [g' [_ Hp']].
  cbv zeta in Hp, Hp'.
  rewrite !landmarkAt_mirror in Hp' by lia.
  unfold mirrorLandmark in Hp'. cbn [Landmark.x Landmark.y] in Hp'.
  fold dx dy in Hp, Hp'.
  replace (1 - Landmark.x (landmarkAt landmarks 17)
           - (1 - Landmark.x (landmarkAt landmarks 5)))
    with (- dx) in Hp' by (unfold dx; ring).
  rewrite Rabs_Ropp in Hp'.
  unfold onResults. cbn [negb multiHandLandmarks]. rewrite Hp, Hp'.
  do 2 eexists. split; [reflexivity|]. split; [reflexivity|].
  split.
  { intros [|] q Hq; cbn [negb] in Hq; [|discriminate Hq].
    injection Hq as <-. reflexivity. }
  cbn [rotation].
  destruct (Rtotal_order 0 dx) as [Hpos | [Hz | Hneg]].
  - rewrite (Rgtb_pos dx Hpos), (Rgtb_nonpos (- dx)) by lra.
    repeat split; intros; try lra. apply Rabs_Ropp.
  - exfalso. apply Hdx. symmetry. exact Hz.
  - rewrite (Rgtb_nonpos dx), (Rgtb_pos (- dx)) by lra.
    repeat split; intros; try lra.
    rewrite <- (Rabs_Ropp (atan2 dy (Rabs dx))). reflexivity.
Qed.

Lemma onResults_roll_witness :
  List.length tiltedHand = 21%nat /\
  Landmark.x (landmarkAt tiltedHand 17) - Landmark.x (landmarkAt tiltedHand 5)
    <> 0 /\
  exists pose pose',
    onResults true (mkResults (Some [tiltedHand])) = Updated pose /\
    onResults true (mkResults (Some [mirror tiltedHand])) = Updated pose' /\
    rotation pose' = - rotation pose.
Proof.
  assert (Hdx : Landmark.x (landmarkAt tiltedHand 17)
                - Landmark.x (landmarkAt tiltedHand 5) <> 0)
    by (unfold tiltedHand, landmarkAt; simpl; lra).
  split; [reflexivity | split; [exact Hdx |]].
  destruct (onResults_roll tiltedHand [] eq_refl Hdx)
    as (pose & pose' & H1 & H2 & _ & _ & _ & H3 & _).
  exists pose, pose'. split; [exact H1 | split; [exact H2 | exact H3]].
Defined.

(** C10: for a detected hand the emitted position is read off landmark 9
    with the same map on both axes, v |-> (1 - v) * 2 - 1 = 1 - 2 v: the
    vertical axis is inverted like the horizontal one, so the top of the
    image (raw y = 0) is position.y = +1. *)
Theorem onResults_position (landmarks : list Landmark.t)
    (others : list (list Landmark.t)) :
  List.length landmarks = 21%nat ->
  let palm := landmarkAt landmarks 9 in
  exists pose,
    onResults true (mkResults (Some (landmarks :: others))) = Updated pose /\
    (forall active q,
       onResults active (mkResults (Some (landmarks :: others))) = Updated q ->
       q = pose) /\
    Vec2.x (position pose) = (1 - Landmark.x palm) * 2 - 1 /\
    Vec2.y (position pose) = (1 - Landmark.y palm) * 2 - 1 /\
    Rabs (Vec2.y (position pose) - 1) = 2 * Rabs (Landmark.y palm) /\
    (Landmark.y palm = 0 -> Vec2.y (position pose) = 1).
Proof.
  intros Hlen palm.
  destruct (handPose_on_21 landmarks Hlen) as [g [_ Hp]].
  cbv zeta in Hp. fold palm in Hp.
  unfold onResults. cbn [negb multiHandLandmarks]. rewrite Hp.
  eexists. split; [reflexivity|].
  split.
  { intros [|] q Hq; cbn [negb] in Hq; [|discriminate Hq].
    injection Hq as <-. reflexivity. }
  cbn [position Vec2.x Vec2.y].
  repeat split; try reflexivity.
  - replace ((1 - Landmark.y palm) * 2 - 1 - 1)
      with (- (2 * Landmark.y palm)) by ring.
    rewrite Rabs_Ropp, Rabs_mult, (Rabs_pos_eq 2) by lra. reflexivity.
  - intros ->. ring.
Qed.

Lemma onResults_position_witness :
  List.length tiltedHand = 21%nat /\
  exists pose,
    onResults true (mkResults (Some [tiltedHand])) = Updated pose /\
    Vec2.x (position pose) = (1 - 5 / 10) * 2 - 1 /\
    Vec2.y (position pose) = (1 - 5 / 10) * 2 - 1.
Proof.
  split; [reflexivity|].
  destruct (onResults_position tiltedHand [] eq_refl)
    as (pose & H1 & _ & H2 & H3 & _).
  exists pose. split; [exact H1 | split; [exact H2 | exact H3]].
Defined.

(** For raw coordinates inside the image the position is in [-1, 1]^2. *)
Lemma handPose_position_in_square (landmarks : list Landmark.t) pose :
  List.length landmarks = 21%nat ->
  0 <= Landmark.x (landmarkAt landmarks 9) <= 1 ->
  0 <= Landmark.y (landmarkAt landmarks 9) <= 1 ->
  handPose landmarks = Some pose ->
  -1 <= Vec2.x (position pose) <= 1 /\ -1 <= Vec2.y (position pose) <= 1.
Proof.
  intros Hlen Hx Hy Hp.
  destruct (handPose_on_21 landmarks Hlen) as [g [_ Hq]].
  cbv zeta in Hq. rewrite Hq in Hp. injection Hp as <-.
  cbn [position Vec2.x Vec2.y]. lra.
Qed.

(** C9 (amended): while the controller is mounted, a frame without a
    hand (no landmark field, or an empty array) makes the handler emit
    exactly the default pose; it neither throws nor returns silently.
    Once the controller is unmounted the handler returns without
    emitting. *)
Theorem onResults_no_hand (results : Results) :
  multiHandLandmarks results = None \/ multiHandLandmarks results = Some [] ->
  onResults true results = Updated defaultPose /\
  defaultPose = mkHand NONE (Vec2.new 0 0) 0 /\
  onResults false results = Skipped.
Proof.
  intros [H | H]; unfold onResults; rewrite H; repeat split.
Qed.

Lemma onResults_no_hand_witness :
  (multiHandLandmarks (mkResults (Some [])) = None \/
   multiHandLandmarks (mkResults (Some [])) = Some []) /\
  onResults true (mkResults (Some [])) = Updated defaultPose.
Proof.
  assert (H : multiHandLandmarks (mkResults (Some [])) = None \/
              multiHandLandmarks (mkResults (Some [])) = Some [])
    by (right; reflexivity).
  split; [exact H | exact (proj1 (onResults_no_hand _ H))].
Defined.

(** After the component is unmounted ([active] is false) the handler
    returns before it looks at the frame: nothing is emitted. *)
Lemma onResults_inactive_skips :
  onResults false (mkResults (Some [])) = Skipped /\
  onResults false (mkResults (Some [])) <> Updated defaultPose.
Proof. split; [reflexivity | discriminate]. Qed.

(** ** Photo panels *)

Lemma isFocused_inactive (m : AppState) (index : nat) (active : Z) :
  Z.of_nat index <> active -> isFocused m index active = false.
Proof.
  intros H. unfold isFocused.
  destruct (Z.eqb_spec (Z.of_nat index) active); [contradiction|].
  apply andb_false_r.
Qed.

(** In FOCUSED every panel but the active one takes the branch written
    for the tree: its target is the one it has in ASSEMBLED. *)
Lemma panelTarget_FOCUSED_inactive panel active camera time :
  Z.of_nat (panel_index panel) <> active ->
  panelTarget panel FOCUSED active camera time
  = panelTarget panel ASSEMBLED active camera time /\
  targetPos (panelTarget panel FOCUSED active camera time)
  = panel_treePos panel /\
  targetScale (panelTarget panel FOCUSED active camera time) = 65 / 100.
Proof.
  intros H. unfold panelTarget.
  rewrite isFocused_inactive by exact H.
  unfold isFocused. cbn [AppState_eqb andb].
  repeat split.
Qed.

Lemma panelTarget_SCATTERED panel active camera time :
  targetPos (panelTarget panel SCATTERED active camera time)
  = panel_randomPos panel /\
  targetScale (panelTarget panel SCATTERED active camera time) = 1 /\
  targetRot (panelTarget panel SCATTERED active camera time)
  = Quaternion.setFromEuler 0 (time * (1 / 10)) 0.
Proof. repeat split. Qed.

(** The active panel in FOCUSED sits in front of the camera. *)
Lemma panelTarget_FOCUSED_active panel camera time :
  let t := panelTarget panel FOCUSED (Z.of_nat (panel_index panel))
                       camera time in
  targetScale t = 25 / 10 /\ targetRot t = camera_quaternion camera.
Proof.
  unfold panelTarget, isFocused. rewrite Z.eqb_refl. repeat split.
Qed.

Lemma clamp_inside v lo hi : lo <= v <= hi -> MathUtils.clamp v lo hi = v.
Proof.
  intros H. unfold MathUtils.clamp.
  rewrite Rmin_right by lra. apply Rmax_right. lra.
Qed.

Lemma samplePanel_slots :
  panel_index samplePanel = 1%nat /\
  Vector3.y (panel_treePos samplePanel) = 25 / 100 /\
  panel_randomPos samplePanel = Vector3.new (55 / 10) (55 / 10) (55 / 10).
Proof.
  unfold samplePanel, mountPanel, randomPos, scatterSample, treePos,
    bind, ret, Math_random, constDraws.
  cbn [fst snd panel_index panel_treePos panel_randomPos Vector3.y].
  split; [reflexivity|]. split.
  - replace (INR 1 / INR 2) with (1 / 2) by (cbn [INR]; field).
    rewrite clamp_inside by lra. unfold TREE_HEIGHT. field.
  - unfold SCATTER_BOUNDS. f_equal; field.
Qed.

(** C3 (as the code has it): with two photos, mode FOCUSED and photo 0
    active, photo 1 is sent to its tree slot (height 0.25) at scale 0.65,
    not to its scatter slot (5.5, 5.5, 5.5) at scale 1.0 as it is in
    SCATTERED. *)
Theorem panelTarget_FOCUSED_inactive_is_tree :
  targetPos (panelTarget samplePanel FOCUSED 0 sampleCamera 0)
    = panel_treePos samplePanel /\
  Vector3.y (targetPos (panelTarget samplePanel FOCUSED 0 sampleCamera 0))
    = 25 / 100 /\
  targetScale (panelTarget samplePanel FOCUSED 0 sampleCamera 0) = 65 / 100 /\
  targetPos (panelTarget samplePanel SCATTERED 0 sampleCamera 0)
    = Vector3.new (55 / 10) (55 / 10) (55 / 10) /\
  targetScale (panelTarget samplePanel SCATTERED 0 sampleCamera 0) = 1 /\
  targetPos (panelTarget samplePanel FOCUSED 0 sampleCamera 0)
    <> targetPos (panelTarget samplePanel SCATTERED 0 sampleCamera 0) /\
  targetScale (panelTarget samplePanel FOCUSED 0 sampleCamera 0)
    <> targetScale (panelTarget samplePanel SCATTERED 0 sampleCamera 0).
Proof.
  destruct samplePanel_slots as (Hi & Hy & Hr).
  assert (Hne : Z.of_nat (panel_index samplePanel) <> 0%Z)
    by (rewrite Hi; discriminate).
  destruct (panelTarget_FOCUSED_inactive samplePanel 0 sampleCamera 0 Hne)
    as (_ & Hpos & Hscale).
  destruct (panelTarget_SCATTERED samplePanel 0 sampleCamera 0)
    as (Hspos & Hsscale & _).
  rewrite Hpos, Hscale, Hspos, Hsscale, Hr, Hy.
  repeat (split; [reflexivity|]). split.
  - intros H. apply (f_equal Vector3.y) in H.
    rewrite Hy in H. cbn [Vector3.y] in H. lra.
  - lra.
Qed.

(** ** Per-frame easing *)

(** One coordinate of [Vector3.lerp]: the error to the target is scaled
    by [1 - alpha]. *)
Lemma lerp_error (c t alpha : R) :
  c + (t - c) * alpha - t = (1 - alpha) * (c - t).
Proof. ring. Qed.





(** With a step of more than 1 the new error is larger in magnitude
    than [alpha - 1] allows: past the target, on the other side. *)
Lemma lerp_overshoots (c t alpha : R) :
  1 < alpha -> c < t -> t < c + (t - c) * alpha.
Proof. intros Ha Hc. nra. Qed.




(** ** Particle generator *)

Lemma cbrt_pos x : 0 < x -> 0 < cbrt x.
Proof.
  intros H. unfold cbrt. destruct (Rlt_dec 0 x); [apply exp_pos | lra].
Qed.

Lemma cbrt_0 : cbrt 0 = 0.
Proof.
  unfold cbrt. destruct (Rlt_dec 0 0); [lra|]. reflexivity.
Qed.

(** [cbrt] is the cube root. *)
Lemma cbrt_cube x : cbrt x * cbrt x * cbrt x = x.
Proof.
  assert (Hexp : forall y, 0 < y ->
            exp (ln y / 3) * exp (ln y / 3) * exp (ln y / 3) = y).
  { intros y Hy. rewrite <- !exp_plus.
    replace (ln y / 3 + ln y / 3 + ln y / 3) with (ln y) by field.
    apply exp_ln, Hy. }
  unfold cbrt. destruct (Rlt_dec 0 x) as [Hp | Hp].
  - apply Hexp, Hp.
  - destruct (Rlt_dec x 0) as [Hn | Hn].
    + assert (H := Hexp (- x) ltac:(lra)). nra.
    + nra.
Qed.

Lemma cbrt_unit x : 0 <= x < 1 -> 0 <= cbrt x < 1.
Proof.
  intros [H0 H1]. destruct (Req_dec x 0) as [-> | Hx].
  - rewrite cbrt_0. lra.
  - assert (Hp : 0 < x) by lra.
    pose proof (cbrt_pos x Hp) as Hc.
    split; [lra|].
    destruct (Rlt_le_dec (cbrt x) 1) as [Hlt | Hge]; [exact Hlt|].
    pose proof (cbrt_cube x) as Hcube.
    assert (1 <= cbrt x * cbrt x) by nra.
    nra.
Qed.

(** The draws a computation leaves are draws of the stream it got. *)
Lemma Math_random_draws (P : R -> Prop) s :
  drawsAll P s ->
  P (fst (Math_random s)) /\ drawsAll P (snd (Math_random s)).
Proof. intros H. split; [apply H | intros n; apply H]. Qed.

Section GeneratorFacts.

Variable uuidText : R -> string.

(** The tree position of a main-spiral particle, in terms of the three
    draws that place it. *)
Lemma mainParticle_initialPos count i s :
  let t := INR i / INR count in
  let tubeRadius := MathUtils.lerp (9 / 10) (3 / 10) t in
  let spiralRadius := MathUtils.lerp TREE_RADIUS_BASE (1 / 10) t in
  let angle := t * PI * 2 * turns in
  let theta := 2 * PI * s 0%nat in
  let phi := acos (2 * s 1%nat - 1) in
  let r := cbrt (s 2%nat) * tubeRadius * (9 / 10) in
  initialPos (fst (mainParticle uuidText count i s)) =
    Vector3.new (cos angle * spiralRadius + r * sin phi * cos theta)
                (- TREE_HEIGHT / 2 + t * TREE_HEIGHT
                 + r * sin phi * sin theta * (6 / 10))
                (sin angle * spiralRadius + r * cos phi).
Proof.
  unfold mainParticle, generateUUID, scatterSample, bind, Math_random, ret.
  cbn [fst snd].
  destruct (Rlt_dec _ (55 / 100)); [reflexivity|].
  destruct (Rlt_dec _ (70 / 100)); [reflexivity|].
  destruct (Rlt_dec _ (80 / 100)); reflexivity.
Qed.

Lemma mainParticle_draws (P : R -> Prop) count i s :
  drawsAll P s -> drawsAll P (snd (mainParticle uuidText count i s)).
Proof.
  intros H.
  unfold mainParticle, generateUUID, scatterSample, bind, Math_random, ret.
  cbn [fst snd].
  destruct (Rlt_dec _ (55 / 100)); [intros k; apply H|].
  destruct (Rlt_dec _ (70 / 100)); [intros k; apply H|].
  destruct (Rlt_dec _ (80 / 100)); intros k; apply H.
Qed.

Lemma fillerParticle_initialPos s :
  let t := s 0%nat in
  let r := sqrt (s 1%nat)
           * (MathUtils.lerp TREE_RADIUS_BASE (1 / 10) t * (7 / 10)) in
  let theta := s 2%nat * 2 * PI in
  initialPos (fst (fillerParticle uuidText s)) =
    Vector3.new (r * cos theta)
                (- TREE_HEIGHT / 2 + t * TREE_HEIGHT
                 + (s 3%nat - 5 / 10) * (5 / 10))
                (r * sin theta).
Proof. reflexivity. Qed.

Lemma fillerParticle_draws (P : R -> Prop) s :
  drawsAll P s -> drawsAll P (snd (fillerParticle uuidText s)).
Proof. intros H n. apply H. Qed.

End GeneratorFacts.

Lemma forLoop_length {A : Type} (body : nat -> Rand A) count :
  forall i s, List.length (fst (forLoop body i count s)) = count.
Proof.
  induction count as [| count IH]; intros i s; [reflexivity|].
  cbn [forLoop]. unfold bind, ret.
  destruct (body i s) as [a s1].
  specialize (IH (S i) s1).
  destruct (forLoop body (S i) count s1) as [rest s2].
  cbn [fst List.length] in *. congruence.
Qed.

(** A property every pass establishes (for the indices the loop visits,
    on draws that satisfy [P]) holds of every element the loop pushes. *)
Lemma forLoop_Forall {A : Type} (P : R -> Prop) (Q : A -> Prop)
    (body : nat -> Rand A) (hi : nat) :
  (forall i s, (i < hi)%nat -> drawsAll P s ->
     Q (fst (body i s)) /\ drawsAll P (snd (body i s))) ->
  forall count i s, (i + count <= hi)%nat -> drawsAll P s ->
    Forall Q (fst (forLoop body i count s)) /\
    drawsAll P (snd (forLoop body i count s)).
Proof.
  intros Hbody.
  induction count as [| count IH]; intros i s Hi Hs.
  - split; [constructor | exact Hs].
  - cbn [forLoop]. unfold bind, ret.
    destruct (Hbody i s ltac:(lia) Hs) as [Hq Hs1].
    destruct (body i s) as [a s1]. cbn [fst snd] in Hq, Hs1.
    destruct (IH (S i) s1 ltac:(lia) Hs1) as [Hrest Hs2].
    destruct (forLoop body (S i) count s1) as [rest s2].
    cbn [fst snd] in *. split; [constructor; assumption | exact Hs2].
Qed.

Lemma index_fraction (i count : nat) :
  (i < count)%nat -> 0 <= INR i / INR count < 1.
Proof.
  intros H.
  pose proof (pos_INR i) as Hi.
  pose proof (lt_INR _ _ H) as Hlt.
  assert (Hc : 0 < INR count) by lra.
  split.
  - apply Rmult_le_pos; [exact Hi | left; apply Rinv_0_lt_compat, Hc].
  - apply (Rmult_lt_reg_r (INR count)); [exact Hc|].
    unfold Rdiv. rewrite Rmult_assoc, Rinv_l by lra. lra.
Qed.

Lemma product_within (a s1 s2 : R) :
  0 <= a -> -1 <= s1 <= 1 -> -1 <= s2 <= 1 ->
  - a <= a * s1 * s2 <= a.
Proof.
  intros Ha H1 H2.
  assert (Hp : -1 <= s1 * s2 <= 1) by nra.
  rewrite Rmult_assoc. nra.
Qed.

Section GeneratorBounds.

Variable uuidText : R -> string.

(** A main-spiral particle stays within 0.54 * tubeRadius(t) of the
    spiral's height at t = i / count. *)
Lemma mainParticle_y_bound count i s :
  (i < count)%nat -> unitDraws s ->
  let y := Vector3.y (initialPos (fst (mainParticle uuidText count i s))) in
  - TREE_HEIGHT / 2 - 486 / 1000 < y < TREE_HEIGHT / 2 + 162 / 1000.
Proof.
  intros Hi Hs y. subst y.
  pose proof (mainParticle_initialPos uuidText count i s) as Hpos.
  cbv zeta in Hpos. rewrite Hpos. cbn [Vector3.y]. clear Hpos.
  pose proof (index_fraction i count Hi) as Ht.
  set (t := INR i / INR count) in *.
  pose proof (cbrt_unit (s 2%nat) (Hs 2%nat)) as Hc.
  pose proof (SIN_bound (acos (2 * s 1%nat - 1))) as H1.
  pose proof (SIN_bound (2 * PI * s 0%nat)) as H2.
  unfold MathUtils.lerp, TREE_HEIGHT.
  set (tube := (1 - t) * (9 / 10) + t * (3 / 10)).
  assert (Htube : 3 / 10 < tube <= 9 / 10) by (unfold tube; lra).
  set (r := cbrt (s 2%nat) * tube * (9 / 10)).
  assert (Hr : 0 <= r < tube * (9 / 10)) by (unfold r; nra).
  pose proof (product_within r _ _ (proj1 Hr) H1 H2) as Hoff.
  set (off := r * sin (acos (2 * s 1%nat - 1)) * sin (2 * PI * s 0%nat)) in *.
  unfold tube in Hr. lra.
Qed.

(** A core filler stays within 0.25 of its random height. *)
Lemma fillerParticle_y_bound s :
  unitDraws s ->
  let y := Vector3.y (initialPos (fst (fillerParticle uuidText s))) in
  - TREE_HEIGHT / 2 - 25 / 100 <= y < TREE_HEIGHT / 2 + 25 / 100.
Proof.
  intros Hs y. subst y. rewrite fillerParticle_initialPos. cbn [Vector3.y].
  pose proof (Hs 0%nat). pose proof (Hs 3%nat). unfold TREE_HEIGHT. lra.
Qed.

Lemma mainSpiral_bound s :
  unitDraws s ->
  Forall (fun p => - TREE_HEIGHT / 2 - 486 / 1000 < Vector3.y (initialPos p)
                   < TREE_HEIGHT / 2 + 162 / 1000)
         (fst (mainSpiral uuidText s)) /\
  unitDraws (snd (mainSpiral uuidText s)).
Proof.
  intros Hs. unfold mainSpiral.
  apply (forLoop_Forall (fun r => 0 <= r < 1) _ _ MAIN_COUNT);
    [| lia | exact Hs].
  intros i s0 Hi Hs0. split.
  - apply mainParticle_y_bound; assumption.
  - apply (mainParticle_draws uuidText (fun r => 0 <= r < 1)), Hs0.
Qed.

Lemma coreFillers_bound s :
  unitDraws s ->
  Forall (fun p => - TREE_HEIGHT / 2 - 25 / 100 <= Vector3.y (initialPos p)
                   < TREE_HEIGHT / 2 + 25 / 100)
         (fst (coreFillers uuidText s)) /\
  unitDraws (snd (coreFillers uuidText s)).
Proof.
  intros Hs. unfold coreFillers.
  apply (forLoop_Forall (fun r => 0 <= r < 1) _ _ FILLER_COUNT);
    [| lia | exact Hs].
  intros i s0 Hi Hs0. split.
  - apply fillerParticle_y_bound; assumption.
  - apply (fillerParticle_draws uuidText (fun r => 0 <= r < 1)), Hs0.
Qed.

Lemma generateParticles_split s :
  fst (generateParticles uuidText s) =
    fst (mainSpiral uuidText s)
    ++ fst (coreFillers uuidText (snd (mainSpiral uuidText s))).
Proof.
  unfold generateParticles, bind, ret.
  destruct (mainSpiral uuidText s) as [main s1]. cbn [fst snd].
  destruct (coreFillers uuidText s1) as [fillers s2]. reflexivity.
Qed.

(** Exactly [PARTICLE_COUNT] particles are produced. *)
Lemma generateParticles_count s :
  List.length (fst (generateParticles uuidText s)) = PARTICLE_COUNT.
Proof.
  rewrite generateParticles_split, length_app.
  unfold mainSpiral, coreFillers. rewrite !forLoop_length.
  unfold MAIN_COUNT, FILLER_COUNT, PARTICLE_COUNT. lia.
Qed.

End GeneratorBounds.

Lemma forLoop_first {A : Type} (body : nat -> Rand A) i count s :
  (0 < count)%nat ->
  exists rest, fst (forLoop body i count s) = fst (body i s) :: rest.
Proof.
  intros Hc. destruct count as [| count]; [lia|].
  cbn [forLoop]. unfold bind, ret.
  destruct (body i s) as [a s1]. cbn [fst snd].
  destruct (forLoop body (S i) count s1) as [rest s2].
  exists rest. reflexivity.
Qed.

Lemma FILLER_COUNT_pos : (0 < FILLER_COUNT)%nat.
Proof. unfold FILLER_COUNT. lia. Qed.

Lemma MAIN_COUNT_pos : (0 < MAIN_COUNT)%nat.
Proof. unfold MAIN_COUNT, PARTICLE_COUNT, FILLER_COUNT. lia. Qed.

Lemma mainSpiral_draws uuidText (P : R -> Prop) s :
  drawsAll P s -> drawsAll P (snd (mainSpiral uuidText s)).
Proof.
  intros Hs. unfold mainSpiral.
  apply (forLoop_Forall P (fun _ => True) _ MAIN_COUNT); [| lia | exact Hs].
  intros i s0 _ Hs0. split; [exact I | apply mainParticle_draws, Hs0].
Qed.

(** C6 (amended): on draws in [0, 1) every tree height lies within
    (-height/2 - 0.486, height/2 + 0.25): a main-spiral particle within
    (-height/2 - 0.486, height/2 + 0.162), a core filler within
    [-height/2 - 0.25, height/2 + 0.25). *)
Theorem generateParticles_tree_height (uuidText : R -> string)
    (s : nat -> R) :
  unitDraws s ->
  Forall (fun p => - TREE_HEIGHT / 2 - 486 / 1000 < Vector3.y (initialPos p)
                   < TREE_HEIGHT / 2 + 162 / 1000)
         (fst (mainSpiral uuidText s)) /\
  Forall (fun p => - TREE_HEIGHT / 2 - 25 / 100 <= Vector3.y (initialPos p)
                   < TREE_HEIGHT / 2 + 25 / 100)
         (fst (coreFillers uuidText (snd (mainSpiral uuidText s)))) /\
  Forall (fun p => - TREE_HEIGHT / 2 - 486 / 1000 < Vector3.y (initialPos p)
                   < TREE_HEIGHT / 2 + 25 / 100)
         (fst (generateParticles uuidText s)).
Proof.
  intros Hs.
  destruct (mainSpiral_bound uuidText s Hs) as [Hmain Hs1].
  destruct (coreFillers_bound uuidText _ Hs1) as [Hfill _].
  split; [exact Hmain|]. split; [exact Hfill|].
  rewrite generateParticles_split. apply Forall_app. split.
  - eapply Forall_impl; [|exact Hmain]. cbv beta. intros p Hp. lra.
  - eapply Forall_impl; [|exact Hfill]. cbv beta. intros p Hp. lra.
Qed.

Lemma unitDraws_const v : 0 <= v < 1 -> unitDraws (constDraws v).
Proof. intros H n. exact H. Qed.

Lemma generateParticles_tree_height_witness :
  unitDraws (constDraws (1 / 2)) /\
  Forall (fun p => - TREE_HEIGHT / 2 - 486 / 1000 < Vector3.y (initialPos p)
                   < TREE_HEIGHT / 2 + 25 / 100)
         (fst (generateParticles noText (constDraws (1 / 2)))).
Proof.
  assert (H : unitDraws (constDraws (1 / 2)))
    by (intros n; unfold constDraws; lra).
  split; [exact H|].
  exact (proj2 (proj2 (generateParticles_tree_height noText _ H))).
Defined.

Lemma coreFillers_first uuidText s :
  exists rest,
    fst (coreFillers uuidText s) = fst (fillerParticle uuidText s) :: rest.
Proof.
  exact (forLoop_first (fun _ => fillerParticle uuidText) 0 FILLER_COUNT s
                       FILLER_COUNT_pos).
Qed.

Lemma mainSpiral_first uuidText s :
  exists rest,
    fst (mainSpiral uuidText s)
    = fst (mainParticle uuidText MAIN_COUNT 0 s) :: rest.
Proof.
  exact (forLoop_first (mainParticle uuidText MAIN_COUNT) 0 MAIN_COUNT s
                       MAIN_COUNT_pos).
Qed.

(** A filler whose height draw and jitter draw are both 0 sits at -5.25. *)
Lemma fillerParticle_lowest uuidText s :
  s 0%nat = 0 -> s 3%nat = 0 ->
  Vector3.y (initialPos (fst (fillerParticle uuidText s)))
  = - TREE_HEIGHT / 2 - 25 / 100.
Proof.
  intros H0 H3. rewrite fillerParticle_initialPos. cbn [Vector3.y].
  rewrite H0, H3. unfold TREE_HEIGHT. field.
Qed.

Lemma generateParticles_zero_draws uuidText s :
  drawsAll (fun r => r = 0) s ->
  ~ Forall (fun p => - TREE_HEIGHT / 2 <= Vector3.y (initialPos p)
                     <= TREE_HEIGHT / 2)
           (fst (generateParticles uuidText s)).
Proof.
  intros Hs H. rewrite generateParticles_split in H.
  apply Forall_app in H. destruct H as [_ H].
  pose proof (mainSpiral_draws uuidText _ s Hs) as Hz.
  destruct (coreFillers_first uuidText (snd (mainSpiral uuidText s)))
    as [rest Hrest].
  rewrite Hrest in H. apply Forall_inv in H.
  rewrite (fillerParticle_lowest uuidText _ (Hz 0%nat) (Hz 3%nat)) in H.
  lra.
Qed.

(** The first main-spiral particle, drawn with u = 3/4 (straight down),
    v = 3/4 and a positive radius draw, lies below the base. *)
Lemma mainParticle_first_low uuidText s :
  s 0%nat = 3 / 4 -> s 1%nat = 3 / 4 -> s 2%nat = 3 / 4 ->
  Vector3.y (initialPos (fst (mainParticle uuidText MAIN_COUNT 0 s)))
  < - TREE_HEIGHT / 2.
Proof.
  intros H0 H1 H2.
  rewrite mainParticle_initialPos. cbn [Vector3.y].
  rewrite H0, H1, H2. unfold MathUtils.lerp, TREE_HEIGHT.
  replace (INR 0 / INR MAIN_COUNT) with 0
    by (change (INR 0) with 0; unfold Rdiv; ring).
  replace (2 * PI * (3 / 4)) with (3 * (PI / 2)) by field.
  rewrite sin_3PI2.
  replace (2 * (3 / 4) - 1) with (1 / 2) by field.
  rewrite sin_acos by lra.
  assert (Hs : 0 < sqrt (1 - (1 / 2)²))
    by (apply sqrt_lt_R0; unfold Rsqr; lra).
  pose proof (cbrt_pos (3 / 4) ltac:(lra)) as Hc.
  set (q := sqrt (1 - (1 / 2)²)) in *. set (c := cbrt (3 / 4)) in *.
  assert (0 < c * q) by (apply Rmult_lt_0_compat; assumption).
  nra.
Qed.

(** With every draw 0 the first core filler sits at height -5.25, below
    -height/2. *)
Lemma generateParticles_below_base :
  unitDraws zeroDraws /\
  ~ Forall (fun p => - TREE_HEIGHT / 2 <= Vector3.y (initialPos p)
                     <= TREE_HEIGHT / 2)
           (fst (generateParticles noText zeroDraws)).
Proof.
  split.
  - intros n. unfold zeroDraws. lra.
  - apply generateParticles_zero_draws. intros n. reflexivity.
Qed.

(** The main spiral leaves the band too: with every draw 3/4 its first
    particle (t = 0) is pushed straight down from the base. *)
Lemma mainSpiral_below_base :
  unitDraws (constDraws (3 / 4)) /\
  exists p rest,
    fst (mainSpiral noText (constDraws (3 / 4))) = p :: rest /\
    Vector3.y (initialPos p) < - TREE_HEIGHT / 2.
Proof.
  split.
  - apply unitDraws_const. lra.
  - destruct (mainSpiral_first noText (constDraws (3 / 4))) as [rest Hrest].
    exists (fst (mainParticle noText MAIN_COUNT 0 (constDraws (3 / 4)))), rest.
    split; [exact Hrest|].
    apply mainParticle_first_low; reflexivity.
Qed.

(* ================================================================== *)
(** * Part III: further properties of the components                    *)
(* ================================================================== *)

(** ** Particle generator: every particle *)

Lemma coreFillers_draws uuidText (P : R -> Prop) s :
  drawsAll P s -> drawsAll P (snd (coreFillers uuidText s)).
Proof.
  intros Hs. unfold coreFillers.
  apply (forLoop_Forall P (fun _ => True) _ FILLER_COUNT); [| lia | exact Hs].
  intros i s0 _ Hs0. split; [exact I | apply fillerParticle_draws, Hs0].
Qed.

(** What holds of every main-spiral pass and of every filler pass holds
    of every generated particle. *)
Lemma generateParticles_Forall uuidText (Q : ParticleData -> Prop) :
  (forall i s, (i < MAIN_COUNT)%nat -> unitDraws s ->
     Q (fst (mainParticle uuidText MAIN_COUNT i s))) ->
  (forall s, unitDraws s -> Q (fst (fillerParticle uuidText s))) ->
  forall s, unitDraws s -> Forall Q (fst (generateParticles uuidText s)).
Proof.
  intros Hmain Hfill s Hs.
  rewrite generateParticles_split. apply Forall_app. split.
  - unfold mainSpiral.
    apply (forLoop_Forall (fun r => 0 <= r < 1) Q _ MAIN_COUNT);
      [| lia | exact Hs].
    intros i s0 Hi Hs0. split; [apply Hmain; assumption|].
    apply (mainParticle_draws uuidText (fun r => 0 <= r < 1)), Hs0.
  - pose proof (mainSpiral_draws uuidText (fun r => 0 <= r < 1) s Hs) as Hs1.
    unfold coreFillers.
    apply (forLoop_Forall (fun r => 0 <= r < 1) Q _ FILLER_COUNT);
      [| lia | exact Hs1].
    intros i s0 Hi Hs0. split; [apply Hfill; assumption|].
    apply (fillerParticle_draws uuidText (fun r => 0 <= r < 1)), Hs0.
Qed.

(** X1: whatever the draws, the generator returns exactly PARTICLE_COUNT
    = 3000 particles: first the MAIN_COUNT of the spiral, then the
    FILLER_COUNT fillers. *)
Theorem generateParticles_sizes (uuidText : R -> string) (s : nat -> R) :
  List.length (fst (mainSpiral uuidText s)) = MAIN_COUNT /\
  List.length (fst (coreFillers uuidText (snd (mainSpiral uuidText s))))
    = FILLER_COUNT /\
  List.length (fst (generateParticles uuidText s)) = PARTICLE_COUNT /\
  (MAIN_COUNT + FILLER_COUNT = PARTICLE_COUNT)%nat /\
  Z.of_nat PARTICLE_COUNT = 3000%Z.
Proof.
  split; [exact (forLoop_length (mainParticle uuidText MAIN_COUNT)
                               MAIN_COUNT 0 s)|].
  split; [exact (forLoop_length (fun _ => fillerParticle uuidText)
                               FILLER_COUNT 0 _)|].
  split; [exact (generateParticles_count uuidText s)|].
  split; [unfold MAIN_COUNT, PARTICLE_COUNT, FILLER_COUNT; lia|].
  reflexivity.
Qed.

Section ParticleFields.

Variable uuidText : R -> string.

Ltac run_mainParticle :=
  unfold mainParticle, generateUUID, scatterSample, bind, Math_random, ret;
  cbn [fst snd].

Lemma taper_range t : 0 <= t < 1 -> 5 / 10 < MathUtils.lerp 1 (5 / 10) t <= 1.
Proof. intros H. unfold MathUtils.lerp. lra. Qed.

Lemma mainParticle_scale count i s :
  (i < count)%nat -> unitDraws s ->
  4 / 100 <= scale (fst (mainParticle uuidText count i s)) < 45 / 100.
Proof.
  intros Hi Hs.
  pose proof (taper_range _ (index_fraction i count Hi)) as Ht.
  pose proof (Hs 7%nat) as Hb.
  run_mainParticle.
  set (taper := MathUtils.lerp 1 (5 / 10) (INR i / INR count)) in *.
  set (b := s 7%nat) in *.
  destruct (Rlt_dec _ (55 / 100));
    [cbn [fst snd scale negb ParticleType_eqb]; nra|].
  destruct (Rlt_dec _ (70 / 100));
    [cbn [fst snd scale negb ParticleType_eqb]; nra|].
  destruct (Rlt_dec _ (80 / 100)); cbn [fst snd scale negb ParticleType_eqb]; nra.
Qed.

Lemma fillerParticle_scale s :
  unitDraws s ->
  4 / 100 < scale (fst (fillerParticle uuidText s)) < 13 / 100.
Proof.
  intros Hs.
  pose proof (taper_range _ (Hs 0%nat)) as Ht.
  pose proof (Hs 9%nat) as Hb.
  unfold fillerParticle, generateUUID, scatterSample, bind, Math_random, ret.
  cbn [fst snd scale].
  set (taper := MathUtils.lerp 1 (5 / 10) (s 0%nat)) in *. nra.
Qed.

(** X2: on draws in [0, 1) every particle has a scale in [0.04, 0.45): in
    particular a positive one. *)
Theorem generateParticles_scale s :
  unitDraws s ->
  Forall (fun p => 4 / 100 <= scale p < 45 / 100)
         (fst (generateParticles uuidText s)).
Proof.
  apply generateParticles_Forall.
  - intros i s0 Hi Hs0. apply mainParticle_scale; assumption.
  - intros s0 Hs0. pose proof (fillerParticle_scale s0 Hs0). lra.
Qed.

Lemma mainParticle_scatter count i s :
  unitDraws s -> inScatterCube (scatterPos (fst (mainParticle uuidText count i s))).
Proof.
  intros Hs.
  pose proof (Hs 3%nat). pose proof (Hs 4%nat). pose proof (Hs 5%nat).
  run_mainParticle.
  assert (Hcube : inScatterCube
            (Vector3.new ((s 3%nat - 5 / 10) * SCATTER_BOUNDS)
                         ((s 4%nat - 5 / 10) * SCATTER_BOUNDS)
                         ((s 5%nat - 5 / 10) * SCATTER_BOUNDS)))
    by (unfold inScatterCube, SCATTER_BOUNDS; cbn [Vector3.x Vector3.y Vector3.z];
        lra).
  destruct (Rlt_dec _ (55 / 100)); [exact Hcube|].
  destruct (Rlt_dec _ (70 / 100)); [exact Hcube|].
  destruct (Rlt_dec _ (80 / 100)); exact Hcube.
Qed.

Lemma fillerParticle_scatter s :
  unitDraws s -> inScatterCube (scatterPos (fst (fillerParticle uuidText s))).
Proof.
  intros Hs.
  pose proof (Hs 4%nat). pose proof (Hs 5%nat). pose proof (Hs 6%nat).
  unfold fillerParticle, generateUUID, scatterSample, bind, Math_random, ret.
  unfold inScatterCube, SCATTER_BOUNDS.
  cbn [fst snd scatterPos Vector3.x Vector3.y Vector3.z]. lra.
Qed.

(** X3: on draws in [0, 1) every scatter position lies in the cube of
    half-width SCATTER_BOUNDS / 2 = 11 around the origin. *)
Theorem generateParticles_scatter s :
  unitDraws s ->
  Forall (fun p => inScatterCube (scatterPos p))
         (fst (generateParticles uuidText s)).
Proof.
  apply generateParticles_Forall.
  - intros i s0 _ Hs0. apply mainParticle_scatter, Hs0.
  - intros s0 Hs0. apply fillerParticle_scatter, Hs0.
Qed.

End ParticleFields.

Lemma generateParticles_scale_witness :
  unitDraws (constDraws (1 / 2)) /\
  Forall (fun p => 4 / 100 <= scale p < 45 / 100)
         (fst (generateParticles noText (constDraws (1 / 2)))).
Proof.
  assert (H : unitDraws (constDraws (1 / 2)))
    by (intros n; unfold constDraws; lra).
  split; [exact H|].
  exact (generateParticles_scale noText (constDraws (1 / 2)) H).
Defined.

Lemma generateParticles_scatter_witness :
  unitDraws (constDraws (1 / 2)) /\
  Forall (fun p => inScatterCube (scatterPos p))
         (fst (generateParticles noText (constDraws (1 / 2)))).
Proof.
  assert (H : unitDraws (constDraws (1 / 2)))
    by (intros n; unfold constDraws; lra).
  split; [exact H|].
  exact (generateParticles_scatter noText (constDraws (1 / 2)) H).
Defined.

Section ParticleLooks.

Variable uuidText : R -> string.

Lemma mainParticle_look count i s :
  coherentLook (fst (mainParticle uuidText count i s)).
Proof.
  unfold mainParticle, generateUUID, scatterSample, bind, Math_random, ret.
  cbn [fst snd]. unfold coherentLook.
  destruct (Rlt_dec _ (55 / 100)); [cbn [fst type color]; tauto|].
  destruct (Rlt_dec _ (70 / 100)); [cbn [fst type color]; tauto|].
  destruct (Rlt_dec _ (80 / 100)); cbn [fst type color]; tauto.
Qed.

Lemma fillerParticle_look s :
  type (fst (fillerParticle uuidText s)) = SPHERE /\
  coherentLook (fst (fillerParticle uuidText s)).
Proof.
  unfold fillerParticle, generateUUID, scatterSample, bind, Math_random, ret.
  cbn [fst snd]. unfold coherentLook. cbn [type color].
  split; [reflexivity|]. right. left. split; [reflexivity|].
  destruct (Rgtb _ _); [left | right]; reflexivity.
Qed.

(** X4: whatever the draws, every particle has one of the four looks
    (green cube, red sphere, gold sphere, light in the light colour), and
    every core filler is a sphere: cubes and lights come from the spiral
    only. *)
Theorem generateParticles_looks (s : nat -> R) :
  Forall coherentLook (fst (generateParticles uuidText s)) /\
  Forall (fun p => type p = SPHERE)
         (fst (coreFillers uuidText (snd (mainSpiral uuidText s)))).
Proof.
  split.
  - rewrite generateParticles_split. apply Forall_app. split.
    + unfold mainSpiral.
      apply (forLoop_Forall (fun _ => True) coherentLook _ MAIN_COUNT);
        [| lia | intros n; exact I].
      intros i s0 _ _. split; [apply mainParticle_look | intros n; exact I].
    + unfold coreFillers.
      apply (forLoop_Forall (fun _ => True) coherentLook _ FILLER_COUNT);
        [| lia | intros n; exact I].
      intros i s0 _ _. split; [apply fillerParticle_look | intros n; exact I].
  - unfold coreFillers.
    apply (forLoop_Forall (fun _ => True) (fun p => type p = SPHERE) _
                          FILLER_COUNT); [| lia | intros n; exact I].
    intros i s0 _ _. split; [apply fillerParticle_look | intros n; exact I].
Qed.

Lemma square_nonneg (a : R) : 0 <= a * a.
Proof. exact (Rle_0_sqr a). Qed.

Lemma planar_sum_bound (c1 s1 u v radius r : R) :
  s1 * s1 + c1 * c1 = 1 -> u * u + v * v <= 1 -> 0 <= radius -> 0 <= r ->
  (c1 * radius + r * u) * (c1 * radius + r * u)
  + (s1 * radius + r * v) * (s1 * radius + r * v)
  <= (radius + r) * (radius + r).
Proof.
  intros Hcs Huv Hradius Hr.
  assert (Hd : c1 * u + s1 * v <= 1).
  { assert (Hsq : (c1 * u + s1 * v) * (c1 * u + s1 * v) <= 1).
    { pose proof (square_nonneg (c1 * v - s1 * u)).
      assert ((c1 * u + s1 * v) * (c1 * u + s1 * v)
              + (c1 * v - s1 * u) * (c1 * v - s1 * u)
              = (s1 * s1 + c1 * c1) * (u * u + v * v)) by ring.
      nra. }
    pose proof (square_nonneg (c1 * u + s1 * v - 1)). nra. }
  assert (Hrr : 0 <= radius * r) by nra.
  assert (Huv2 : r * r * (u * u + v * v) <= r * r) by nra.
  assert (Hx : radius * r * (c1 * u + s1 * v) <= radius * r) by nra.
  nra.
Qed.

Lemma sin_cos_unit a : sin a * sin a + cos a * cos a = 1.
Proof. pose proof (sin2_cos2 a) as H. unfold Rsqr in H. exact H. Qed.

Lemma mainParticle_axisDistance count i s :
  (i < count)%nat -> unitDraws s ->
  axisDistance2 (initialPos (fst (mainParticle uuidText count i s)))
  < (501 / 100) * (501 / 100).
Proof.
  intros Hi Hs.
  pose proof (mainParticle_initialPos uuidText count i s) as Hpos.
  cbv zeta in Hpos. rewrite Hpos. clear Hpos.
  unfold axisDistance2. cbn [Vector3.x Vector3.z].
  pose proof (index_fraction i count Hi) as Ht.
  set (t := INR i / INR count) in *.
  pose proof (cbrt_unit (s 2%nat) (Hs 2%nat)) as Hc.
  unfold MathUtils.lerp, TREE_RADIUS_BASE.
  set (radius := (1 - t) * (42 / 10) + t * (1 / 10)).
  set (r := cbrt (s 2%nat) * ((1 - t) * (9 / 10) + t * (3 / 10)) * (9 / 10)).
  assert (Hradius : 0 <= radius <= 42 / 10) by (unfold radius; lra).
  assert (Hr : 0 <= r < 81 / 100) by (unfold r; nra).
  set (a := t * PI * 2 * turns).
  set (phi := acos (2 * s 1%nat - 1)). set (theta := 2 * PI * s 0%nat).
  pose proof (sin_cos_unit a) as Ha.
  pose proof (sin_cos_unit phi) as Hphi.
  pose proof (sin_cos_unit theta) as Htheta.
  assert (Huv : (sin phi * cos theta) * (sin phi * cos theta)
                + cos phi * cos phi <= 1).
  { pose proof (square_nonneg (sin theta)).
    pose proof (square_nonneg (sin phi)).
    assert (cos theta * cos theta <= 1) by lra.
    assert (sin phi * sin phi * (cos theta * cos theta) <= sin phi * sin phi)
      by nra.
    nra. }
  pose proof (planar_sum_bound (cos a) (sin a) (sin phi * cos theta) (cos phi)
                radius r Ha Huv (proj1 Hradius) (proj1 Hr)) as Hsum.
  replace (r * sin phi * cos theta) with (r * (sin phi * cos theta)) by ring.
  assert ((radius + r) * (radius + r) < (501 / 100) * (501 / 100)) by nra.
  lra.
Qed.

Lemma fillerParticle_axisDistance s :
  unitDraws s ->
  axisDistance2 (initialPos (fst (fillerParticle uuidText s)))
  < (294 / 100) * (294 / 100).
Proof.
  intros Hs. rewrite fillerParticle_initialPos.
  unfold axisDistance2. cbn [Vector3.x Vector3.z].
  pose proof (Hs 0%nat) as Ht. pose proof (Hs 1%nat) as Hr0.
  unfold MathUtils.lerp, TREE_RADIUS_BASE.
  set (m := ((1 - s 0%nat) * (42 / 10) + s 0%nat * (1 / 10)) * (7 / 10)).
  assert (Hm : 0 < m <= 294 / 100) by (unfold m; lra).
  assert (Hq : 0 <= sqrt (s 1%nat) < 1).
  { split; [apply sqrt_pos|].
    rewrite <- sqrt_1. apply sqrt_lt_1; lra. }
  set (q := sqrt (s 1%nat)) in *.
  pose proof (sin_cos_unit (s 2%nat * 2 * PI)) as Hth.
  set (c := cos (s 2%nat * 2 * PI)) in *.
  set (sn := sin (s 2%nat * 2 * PI)) in *.
  replace (q * m * c * (q * m * c) + q * m * sn * (q * m * sn))
    with ((q * m) * (q * m) * (sn * sn + c * c)) by ring.
  rewrite Hth. clearbody m q. clear - Hm Hq.
  assert (Hqm : 0 <= q * m < 294 / 100) by nra.
  nra.
Qed.

(** X5: on draws in [0, 1) every tree position lies less than 5.01 from
    the tree's axis (base radius 4.2 plus the garland's 0.81), and every
    core filler less than 2.94 (70 percent of the base radius). *)
Theorem generateParticles_axisDistance (s : nat -> R) :
  unitDraws s ->
  Forall (fun p => axisDistance2 (initialPos p) < (501 / 100) * (501 / 100))
         (fst (generateParticles uuidText s)) /\
  Forall (fun p => axisDistance2 (initialPos p) < (294 / 100) * (294 / 100))
         (fst (coreFillers uuidText (snd (mainSpiral uuidText s)))).
Proof.
  intros Hs. split.
  - apply generateParticles_Forall; [| | exact Hs].
    + intros i s0 Hi Hs0. apply mainParticle_axisDistance; assumption.
    + intros s0 Hs0. pose proof (fillerParticle_axisDistance s0 Hs0). lra.
  - pose proof (mainSpiral_draws uuidText (fun r => 0 <= r < 1) s Hs) as Hs1.
    unfold coreFillers.
    apply (forLoop_Forall (fun r => 0 <= r < 1) _ _ FILLER_COUNT);
      [| lia | exact Hs1].
    intros i s0 _ Hs0. split; [apply fillerParticle_axisDistance, Hs0|].
    apply (fillerParticle_draws uuidText (fun r => 0 <= r < 1)), Hs0.
Qed.

End ParticleLooks.

Lemma generateParticles_axisDistance_witness :
  unitDraws (constDraws (1 / 2)) /\
  Forall (fun p => axisDistance2 (initialPos p) < (501 / 100) * (501 / 100))
         (fst (generateParticles noText (constDraws (1 / 2)))).
Proof.
  assert (H : unitDraws (constDraws (1 / 2)))
    by (intros n; unfold constDraws; lra).
  split; [exact H|].
  exact (proj1 (generateParticles_axisDistance noText (constDraws (1 / 2)) H)).
Defined.

(** ** Easing: the closed form and the limit *)

Lemma lerp_iter_error (alpha t : R) (n : nat) (c : R) :
  Nat.iter n (fun v => v + (t - v) * alpha) c - t = (1 - alpha) ^ n * (c - t).
Proof.
  induction n as [| n IH].
  - change (c - t = 1 * (c - t)). ring.
  - change (Nat.iter (S n) (fun v => v + (t - v) * alpha) c)
      with (Nat.iter n (fun v => v + (t - v) * alpha) c
            + (t - Nat.iter n (fun v => v + (t - v) * alpha) c) * alpha).
    rewrite lerp_error, IH. cbn [pow]. ring.
Qed.

Lemma Vector3_lerp_iter (tgt : Vector3.t) (alpha : R) (n : nat)
    (pos : Vector3.t) :
  Nat.iter n (fun v => Vector3.lerp v tgt alpha) pos =
  Vector3.new
    (Nat.iter n (fun v => v + (Vector3.x tgt - v) * alpha) (Vector3.x pos))
    (Nat.iter n (fun v => v + (Vector3.y tgt - v) * alpha) (Vector3.y pos))
    (Nat.iter n (fun v => v + (Vector3.z tgt - v) * alpha) (Vector3.z pos)).
Proof.
  induction n as [| n IH].
  - destruct pos; reflexivity.
  - change (Nat.iter (S n) (fun v => Vector3.lerp v tgt alpha) pos)
      with (Vector3.lerp (Nat.iter n (fun v => Vector3.lerp v tgt alpha) pos)
                         tgt alpha).
    rewrite IH. reflexivity.
Qed.

Lemma particleFrame_closed_form_aux (p : ParticleData) (m : AppState)
    (delta : R) (pos : Vector3.t) (n : nat) :
  Vector3.x (Nat.iter n (particleFrame p m delta) pos)
  - Vector3.x (getTargetPosition p m)
    = (1 - 3 * delta) ^ n * (Vector3.x pos - Vector3.x (getTargetPosition p m))
  /\
  Vector3.y (Nat.iter n (particleFrame p m delta) pos)
  - Vector3.y (getTargetPosition p m)
    = (1 - 3 * delta) ^ n * (Vector3.y pos - Vector3.y (getTargetPosition p m))
  /\
  Vector3.z (Nat.iter n (particleFrame p m delta) pos)
  - Vector3.z (getTargetPosition p m)
    = (1 - 3 * delta) ^ n * (Vector3.z pos - Vector3.z (getTargetPosition p m)).
Proof.
  change (particleFrame p m delta)
    with (fun v => Vector3.lerp v (getTargetPosition p m)
                                (PARTICLE_RATE * delta)).
  rewrite Vector3_lerp_iter. cbn [Vector3.x Vector3.y Vector3.z].
  rewrite !lerp_iter_error. unfold PARTICLE_RATE. repeat split.
Qed.

(** X6: after n frames of one constant frame time delta in one mode, each
    coordinate's distance to the target is the initial one times
    (1 - 3 delta)^n: the easing is geometric, whatever delta is. *)
Theorem particleFrame_closed_form (p : ParticleData) (m : AppState)
    (delta : R) (pos : Vector3.t) (n : nat) :
  let cur := Nat.iter n (particleFrame p m delta) pos in
  let tgt := getTargetPosition p m in
  Vector3.x cur - Vector3.x tgt
    = (1 - 3 * delta) ^ n * (Vector3.x pos - Vector3.x tgt) /\
  Vector3.y cur - Vector3.y tgt
    = (1 - 3 * delta) ^ n * (Vector3.y pos - Vector3.y tgt) /\
  Vector3.z cur - Vector3.z tgt
    = (1 - 3 * delta) ^ n * (Vector3.z pos - Vector3.z tgt).
Proof.
  exact (particleFrame_closed_form_aux p m delta pos n).
Qed.

(** X7: with a constant frame time below 2/3 s (so that
    |1 - 3 delta| < 1) a particle converges to its target: each coordinate
    comes within any eps > 0 of the target after finitely many frames and
    stays there. *)
Theorem particleFrame_converges (p : ParticleData) (m : AppState)
    (delta : R) (pos : Vector3.t) (eps : R) :
  0 < delta < 2 / 3 -> 0 < eps ->
  exists N : nat, forall n : nat, (N <= n)%nat ->
    let cur := Nat.iter n (particleFrame p m delta) pos in
    let tgt := getTargetPosition p m in
    Rabs (Vector3.x cur - Vector3.x tgt) < eps /\
    Rabs (Vector3.y cur - Vector3.y tgt) < eps /\
    Rabs (Vector3.z cur - Vector3.z tgt) < eps.
Proof.
  intros Hd Heps.
  set (tgt := getTargetPosition p m).
  set (bound := Rabs (Vector3.x pos - Vector3.x tgt)
                + Rabs (Vector3.y pos - Vector3.y tgt)
                + Rabs (Vector3.z pos - Vector3.z tgt) + 1).
  assert (Hb : 0 < bound).
  { unfold bound.
    pose proof (Rabs_pos (Vector3.x pos - Vector3.x tgt)).
    pose proof (Rabs_pos (Vector3.y pos - Vector3.y tgt)).
    pose proof (Rabs_pos (Vector3.z pos - Vector3.z tgt)). lra. }
  assert (Hk : Rabs (1 - 3 * delta) < 1)
    by (unfold Rabs; destruct (Rcase_abs _); lra).
  assert (Hq : 0 < eps / bound) by (apply Rdiv_lt_0_compat; assumption).
  destruct (pow_lt_1_zero _ Hk _ Hq) as [N HN].
  exists N. intros n Hn cur tgt'. subst tgt'.
  destruct (particleFrame_closed_form_aux p m delta pos n) as (Hx & Hy & Hz).
  fold tgt cur in Hx, Hy, Hz.
  specialize (HN n Hn).
  assert (Hsmall : forall e, Rabs e < bound ->
            Rabs ((1 - 3 * delta) ^ n * e) < eps).
  { intros e He. rewrite Rabs_mult.
    pose proof (Rabs_pos ((1 - 3 * delta) ^ n)).
    pose proof (Rabs_pos e).
    assert (Rabs ((1 - 3 * delta) ^ n) * Rabs e
            <= Rabs ((1 - 3 * delta) ^ n) * bound) by nra.
    assert (Rabs ((1 - 3 * delta) ^ n) * bound < eps / bound * bound) by nra.
    replace (eps / bound * bound) with eps in * by (field; lra). lra. }
  pose proof (Rabs_pos (Vector3.x pos - Vector3.x tgt)).
  pose proof (Rabs_pos (Vector3.y pos - Vector3.y tgt)).
  pose proof (Rabs_pos (Vector3.z pos - Vector3.z tgt)).
  rewrite Hx, Hy, Hz.
  repeat split; apply Hsmall; unfold bound; lra.
Qed.

Lemma particleFrame_converges_witness :
  0 < 1 / 60 < 2 / 3 /\ 0 < 1 / 1000 /\
  exists N : nat, forall n : nat, (N <= n)%nat ->
    Rabs (Vector3.x (Nat.iter n (particleFrame sampleParticle ASSEMBLED (1 / 60))
                              origin)
          - Vector3.x (getTargetPosition sampleParticle ASSEMBLED)) < 1 / 1000.
Proof.
  assert (Hd : 0 < 1 / 60 < 2 / 3) by lra.
  assert (He : 0 < 1 / 1000) by lra.
  split; [exact Hd|]. split; [exact He|].
  destruct (particleFrame_converges sampleParticle ASSEMBLED (1 / 60) origin
              (1 / 1000) Hd He) as [N HN].
  exists N. intros n Hn. exact (proj1 (HN n Hn)).
Defined.

(** ** Particles: the three meshes *)

Lemma type_cases (t : ParticleType) :
  (ParticleType_eqb t SPHERE = true /\ ParticleType_eqb t CUBE = false
   /\ ParticleType_eqb t LIGHT = false) \/
  (ParticleType_eqb t SPHERE = false /\ ParticleType_eqb t CUBE = true
   /\ ParticleType_eqb t LIGHT = false) \/
  (ParticleType_eqb t SPHERE = false /\ ParticleType_eqb t CUBE = false
   /\ ParticleType_eqb t LIGHT = true).
Proof. destruct t; cbn; tauto. Qed.

(** X8: the three instanced meshes split the particles: every particle is
    drawn by exactly one of them (the spheres, cubes and lights together
    are a rearrangement of the data), so the instance counts add up to the
    number of particles. *)
Theorem meshes_partition (data : list ParticleData) :
  Permutation data (spheres data ++ cubes data ++ lights data) /\
  (List.length (spheres data) + List.length (cubes data)
   + List.length (lights data) = List.length data)%nat.
Proof.
  assert (Hperm : Permutation data (spheres data ++ cubes data ++ lights data)).
  { induction data as [| d data IH]; [constructor|].
    unfold spheres, cubes, lights in *. cbn [filter].
    destruct (type_cases (type d)) as [(-> & -> & ->) | [(-> & -> & ->) | (-> & -> & ->)]].
    - cbn [app]. constructor. exact IH.
    - apply Permutation_cons_app. exact IH.
    - rewrite app_assoc. apply Permutation_cons_app.
      rewrite <- app_assoc. exact IH. }
  split; [exact Hperm|].
  apply Permutation_length in Hperm. rewrite !length_app in Hperm. lia.
Qed.

(** ** Particles: the twinkle of a light *)

Lemma fourth_power_unit (x : R) : -1 <= x <= 1 -> 0 <= x ^ 4 <= 1.
Proof.
  intros H. replace (x ^ 4) with ((x * x) * (x * x)) by ring.
  pose proof (square_nonneg x). assert (x * x <= 1) by nra. nra.
Qed.

(** X9: a light whose id is not empty and whose scale is not negative is
    drawn, at every time, with a scale between 0.8 and 2.3 times its own
    scale; on an empty id the scale is NaN. *)
Theorem lightScale_range (particle : ParticleData) (time : R) :
  (id particle = EmptyString -> lightScale particle time = None) /\
  (id particle <> EmptyString -> 0 <= scale particle ->
   exists v, lightScale particle time = Some v /\
             8 / 10 * scale particle <= v <= 23 / 10 * scale particle).
Proof.
  unfold lightScale, charCodeAt0. split.
  - intros ->. reflexivity.
  - intros Hid Hscale. destruct (id particle) as [| c rest]; [contradiction|].
    eexists. split; [reflexivity|].
    pose proof (fourth_power_unit _
                  (SIN_bound (time * 5 + INR (Ascii.nat_of_ascii c)))) as Hp.
    set (pulse := sin (time * 5 + INR (Ascii.nat_of_ascii c)) ^ 4) in *.
    nra.
Qed.

Lemma lightScale_range_witness :
  id sampleParticle <> EmptyString /\ 0 <= scale sampleParticle /\
  exists v, lightScale sampleParticle 2 = Some v /\
            8 / 10 * scale sampleParticle <= v <= 23 / 10 * scale sampleParticle.
Proof.
  assert (Hid : id sampleParticle <> EmptyString) by discriminate.
  assert (Hs : 0 <= scale sampleParticle) by (cbn; lra).
  split; [exact Hid|]. split; [exact Hs|].
  exact (proj2 (lightScale_range sampleParticle 2) Hid Hs).
Defined.

(** ** The star on top *)

Lemma starFrame_range (m : AppState) (sc : R) :
  1 / 100 <= sc <= 1 -> 1 / 100 <= starFrame m sc <= 1.
Proof.
  intros H. unfold starFrame, starTargetScale, MathUtils.lerp.
  destruct (AppState_eqb m ASSEMBLED); lra.
Qed.

Lemma starFrame_error (m : AppState) (sc : R) :
  starFrame m sc - starTargetScale m = 9 / 10 * (sc - starTargetScale m).
Proof. unfold starFrame, MathUtils.lerp. field. Qed.

(** X10: whatever the sequence of modes, frame after frame, a star scale
    that starts between 0.01 and 1 (it starts at 1) stays there: the star
    never grows past its full size and never shrinks below 0.01, and in
    a mode that lasts n frames its distance to that mode's target scale
    (1 in ASSEMBLED, 0.01 otherwise) shrinks by 0.9 per frame. *)
Theorem starFrames_range (modes : list AppState) (sc : R) :
  1 / 100 <= sc <= 1 ->
  1 / 100 <= starFrames modes sc <= 1 /\
  forall (m : AppState) (n : nat),
    starFrames (repeat m n) sc - starTargetScale m
    = (9 / 10) ^ n * (sc - starTargetScale m).
Proof.
  intros H. split.
  - revert sc H. induction modes as [| m modes IH]; intros sc H; [exact H|].
    apply IH, starFrame_range, H.
  - intros m n. clear H. revert sc.
    induction n as [| n IH]; intros sc; cbn [repeat pow].
    + unfold starFrames. cbn [fold_left]. ring.
    + change (starFrames (m :: repeat m n) sc)
        with (starFrames (repeat m n) (starFrame m sc)).
      rewrite IH, starFrame_error. ring.
Qed.

Lemma starFrames_range_witness :
  1 / 100 <= 1 <= 1 /\
  1 / 100 <= starFrames [SCATTERED; SCATTERED; ASSEMBLED] 1 <= 1.
Proof.
  assert (H : 1 / 100 <= 1 <= 1) by lra.
  split; [exact H|].
  exact (proj1 (starFrames_range [SCATTERED; SCATTERED; ASSEMBLED] 1 H)).
Defined.

(** ** Gesture classifier: what it does not depend on *)

(** The classifier reads the landmarks through their distances only. *)
Lemma detectGesture_isometry (f : Landmark.t -> Landmark.t) :
  (forall p q, dist (f p) (f q) = dist p q) ->
  forall landmarks, detectGesture (map f landmarks) = detectGesture landmarks.
Proof.
  intros Hf landmarks. unfold detectGesture.
  rewrite !nth_error_map.
  destruct (nth_error landmarks 4) as [thumbTip |]; [|reflexivity].
  destruct (nth_error landmarks 8) as [indexTip |]; [|reflexivity].
  cbn [option_map].
  fold (dist (f thumbTip) (f indexTip)). fold (dist thumbTip indexTip).
  rewrite Hf.
  destruct (Rlt_dec (dist thumbTip indexTip) PINCH_DIST); [reflexivity|].
  destruct (nth_error landmarks 0); [|reflexivity].
  destruct (nth_error landmarks 6); [|reflexivity].
  destruct (nth_error landmarks 12); [|reflexivity].
  destruct (nth_error landmarks 10); [|reflexivity].
  destruct (nth_error landmarks 16); [|reflexivity].
  destruct (nth_error landmarks 14); [|reflexivity].
  destruct (nth_error landmarks 20); [|reflexivity].
  destruct (nth_error landmarks 18); [|reflexivity].
  cbn [option_map]. rewrite !Hf. reflexivity.
Qed.

Lemma dist_translate a b p q :
  dist (translateLandmark a b p) (translateLandmark a b q) = dist p q.
Proof.
  unfold dist, translateLandmark. cbn [Landmark.x Landmark.y].
  f_equal; ring.
Qed.

(** X11: the gesture depends on the shape of the hand only: the mirrored
    hand (x -> 1 - x) and the hand moved anywhere in the image are
    classified like the hand itself, for landmark arrays of any length
    (a short array throws for both or for neither). *)
Theorem detectGesture_invariant (landmarks : list Landmark.t) (a b : R) :
  detectGesture (mirror landmarks) = detectGesture landmarks /\
  detectGesture (translate a b landmarks) = detectGesture landmarks.
Proof.
  split.
  - apply detectGesture_isometry. exact dist_mirror.
  - apply detectGesture_isometry. exact (dist_translate a b).
Qed.

(** ** Hand pose: ranges and errors *)

Lemma atan2_range (y x : R) : 0 <= x -> - (PI / 2) <= atan2 y x <= PI / 2.
Proof.
  intros Hx. unfold atan2. pose proof PI_RGT_0 as Hpi.
  destruct (Rlt_dec 0 x).
  - pose proof (atan_bound (y / x)). lra.
  - destruct (Rlt_dec x 0); [lra|].
    destruct (Rlt_dec 0 y); [lra|].
    destruct (Rlt_dec y 0); lra.
Qed.

(** X12: the roll a 21-landmark hand is emitted with lies in
    [-PI/2, PI/2], strictly inside when landmarks 5 and 17 differ in x; so
    the photo carousel's thresholds of -0.4 and +0.4 are inside the range
    the hand can produce. *)
Theorem handPose_roll_range (landmarks : list Landmark.t) :
  List.length landmarks = 21%nat ->
  exists pose,
    handPose landmarks = Some pose /\
    - (PI / 2) <= rotation pose <= PI / 2 /\
    (Landmark.x (landmarkAt landmarks 17) <> Landmark.x (landmarkAt landmarks 5)
     -> - (PI / 2) < rotation pose < PI / 2) /\
    - (PI / 2) < - THRESHOLD /\ THRESHOLD < PI / 2.
Proof.
  intros Hlen.
  destruct (handPose_on_21 landmarks Hlen) as [g [_ Hp]].
  cbv zeta in Hp. eexists. split; [exact Hp|].
  cbn [rotation].
  set (dx := Landmark.x (landmarkAt landmarks 17)
             - Landmark.x (landmarkAt landmarks 5)) in *.
  set (dy := Landmark.y (landmarkAt landmarks 17)
             - Landmark.y (landmarkAt landmarks 5)) in *.
  pose proof (atan2_range dy (Rabs dx) (Rabs_pos dx)) as Hr.
  split; [destruct (Rgtb dx 0); lra|].
  split.
  - intros Hne. assert (Hdx : 0 < Rabs dx)
      by (apply Rabs_pos_lt; unfold dx; lra).
    rewrite (atan2_pos dy _ Hdx).
    pose proof (atan_bound (dy / Rabs dx)).
    destruct (Rgtb dx 0); lra.
  - pose proof PI2_1. unfold THRESHOLD. lra.
Qed.

Lemma handPose_roll_range_witness :
  List.length tiltedHand = 21%nat /\
  exists pose,
    handPose tiltedHand = Some pose /\
    - (PI / 2) <= rotation pose <= PI / 2.
Proof.
  split; [reflexivity|].
  destruct (handPose_roll_range tiltedHand eq_refl) as (pose & H1 & H2 & _).
  exists pose. split; [exact H1 | exact H2].
Defined.

(** X13: a 21-landmark hand whose landmark 9 is inside the image (raw
    coordinates in [0, 1]) is emitted with a position inside
    [-1, 1] x [-1, 1]. *)
Theorem onResults_position_in_square (landmarks : list Landmark.t)
    (others : list (list Landmark.t)) :
  List.length landmarks = 21%nat ->
  0 <= Landmark.x (landmarkAt landmarks 9) <= 1 ->
  0 <= Landmark.y (landmarkAt landmarks 9) <= 1 ->
  exists pose,
    onResults true (mkResults (Some (landmarks :: others))) = Updated pose /\
    -1 <= Vec2.x (position pose) <= 1 /\
    -1 <= Vec2.y (position pose) <= 1.
Proof.
  intros Hlen Hx Hy.
  destruct (handPose_on_21 landmarks Hlen) as [g [_ Hp]].
  cbv zeta in Hp.
  unfold onResults. cbn [negb multiHandLandmarks]. rewrite Hp.
  eexists. split; [reflexivity|].
  cbn [position Vec2.x Vec2.y]. lra.
Qed.

Lemma onResults_position_in_square_witness :
  List.length tiltedHand = 21%nat /\
  0 <= Landmark.x (landmarkAt tiltedHand 9) <= 1 /\
  0 <= Landmark.y (landmarkAt tiltedHand 9) <= 1 /\
  exists pose,
    onResults true (mkResults (Some [tiltedHand])) = Updated pose /\
    -1 <= Vec2.x (position pose) <= 1 /\
    -1 <= Vec2.y (position pose) <= 1.
Proof.
  assert (Hx : 0 <= Landmark.x (landmarkAt tiltedHand 9) <= 1)
    by (unfold tiltedHand, landmarkAt; simpl; lra).
  assert (Hy : 0 <= Landmark.y (landmarkAt tiltedHand 9) <= 1)
    by (unfold tiltedHand, landmarkAt; simpl; lra).
  split; [reflexivity|]. split; [exact Hx|]. split; [exact Hy|].
  exact (onResults_position_in_square tiltedHand [] eq_refl Hx Hy).
Defined.

Lemma handPose_needs_17 (landmarks : list Landmark.t) :
  nth_error landmarks 17 = None -> handPose landmarks = None.
Proof.
  intros H17. unfold handPose.
  destruct (detectGesture landmarks); [|reflexivity].
  destruct (nth_error landmarks 9); [|reflexivity].
  destruct (nth_error landmarks 5); [|reflexivity].
  rewrite H17. reflexivity.
Qed.

Ltac has_landmark landmarks k :=
  let E := fresh "E" in
  destruct (nth_error landmarks k) eqn:E;
  [| apply nth_error_None in E; lia].

Lemma handPose_enough (landmarks : list Landmark.t) :
  (21 <= List.length landmarks)%nat -> exists pose, handPose landmarks = Some pose.
Proof.
  intros Hlen. unfold handPose, detectGesture.
  has_landmark landmarks 4%nat. has_landmark landmarks 8%nat.
  has_landmark landmarks 0%nat. has_landmark landmarks 6%nat.
  has_landmark landmarks 12%nat. has_landmark landmarks 10%nat.
  has_landmark landmarks 16%nat. has_landmark landmarks 14%nat.
  has_landmark landmarks 20%nat. has_landmark landmarks 18%nat.
  has_landmark landmarks 9%nat. has_landmark landmarks 5%nat.
  has_landmark landmarks 17%nat.
  destruct (Rlt_dec _ PINCH_DIST); [eexists; reflexivity|].
  destruct (3 <=? _)%nat; [eexists; reflexivity|].
  destruct (_ <=? 1)%nat; eexists; reflexivity.
Qed.

(** X14: a mounted handler that is handed a hand of fewer than 18
    landmarks always throws (landmark 17 is read for the roll, whatever
    the gesture); handed 21 or more it never throws and emits a pose. *)
Theorem onResults_landmark_count (landmarks : list Landmark.t)
    (others : list (list Landmark.t)) :
  ((List.length landmarks < 18)%nat ->
   onResults true (mkResults (Some (landmarks :: others))) = Threw) /\
  ((21 <= List.length landmarks)%nat ->
   exists pose,
     onResults true (mkResults (Some (landmarks :: others))) = Updated pose).
Proof.
  unfold onResults. cbn [negb multiHandLandmarks]. split.
  - intros Hlen. rewrite handPose_needs_17; [reflexivity|].
    apply nth_error_None. lia.
  - intros Hlen. destruct (handPose_enough landmarks Hlen) as [pose ->].
    exists pose. reflexivity.
Qed.

Lemma onResults_landmark_count_witness :
  (List.length (@nil Landmark.t) < 18)%nat /\
  onResults true (mkResults (Some [[]])) = Threw /\
  (21 <= List.length tiltedHand)%nat /\
  exists pose, onResults true (mkResults (Some [tiltedHand])) = Updated pose.
Proof.
  assert (H0 : (List.length (@nil Landmark.t) < 18)%nat) by (cbn; lia).
  assert (H21 : (21 <= List.length tiltedHand)%nat) by (cbn; lia).
  split; [exact H0|].
  split; [exact (proj1 (onResults_landmark_count [] []) H0)|].
  split; [exact H21|].
  exact (proj2 (onResults_landmark_count tiltedHand []) H21).
Defined.

(** ** Photo carousel: runs of frames *)

Lemma photoSwitch_right n time rot s :
  appState s = FOCUSED -> (1 < n)%nat ->
  COOLDOWN < time - lastSwitchTime s -> THRESHOLD < rot ->
  photoSwitch n time rot s
  = mkScene FOCUSED (Z.rem (activeIndex s + 1) (Z.of_nat n)) time.
Proof.
  intros Hm Hn Hc Hr. unfold photoSwitch. rewrite Hm. cbn [AppState_eqb].
  replace (1 <? n)%nat with true by (symmetry; apply Nat.ltb_lt; exact Hn).
  cbn [andb].
  destruct (Rlt_dec COOLDOWN (time - lastSwitchTime s)); [|contradiction].
  destruct (Rlt_dec rot (- THRESHOLD)); [unfold THRESHOLD in *; lra|].
  destruct (Rlt_dec THRESHOLD rot); [reflexivity | contradiction].
Qed.

Lemma photoSwitch_left n time rot s :
  appState s = FOCUSED -> (1 < n)%nat ->
  COOLDOWN < time - lastSwitchTime s -> rot < - THRESHOLD ->
  photoSwitch n time rot s
  = mkScene FOCUSED (Z.rem (activeIndex s - 1 + Z.of_nat n) (Z.of_nat n)) time.
Proof.
  intros Hm Hn Hc Hr. unfold photoSwitch. rewrite Hm. cbn [AppState_eqb].
  replace (1 <? n)%nat with true by (symmetry; apply Nat.ltb_lt; exact Hn).
  cbn [andb].
  destruct (Rlt_dec COOLDOWN (time - lastSwitchTime s)); [|contradiction].
  destruct (Rlt_dec rot (- THRESHOLD)); [reflexivity | contradiction].
Qed.

Lemma photoFrames_right n frames :
  (1 < n)%nat ->
  forall s, appState s = FOCUSED ->
    (0 <= activeIndex s < Z.of_nat n)%Z ->
    spaced (lastSwitchTime s) frames ->
    Forall (fun f => THRESHOLD < snd f) frames ->
    activeIndex (photoFrames n frames s)
    = ((activeIndex s + Z.of_nat (List.length frames)) mod Z.of_nat n)%Z.
Proof.
  intros Hn. induction frames as [| f frames IH]; intros s Hm Hi Hsp Hrot.
  - cbn [photoFrames fold_left List.length]. rewrite Z.add_0_r.
    symmetry. apply Z.mod_small. exact Hi.
  - destruct Hsp as [Hc Hsp]. inversion Hrot as [| ? ? Hr Hrest]; subst.
    change (photoFrames n (f :: frames) s)
      with (photoFrames n frames (photoSwitch n (fst f) (snd f) s)).
    rewrite (photoSwitch_right n (fst f) (snd f) s Hm Hn Hc Hr).
    destruct (rem_next_in_range _ _ Hi) as [Hx Hxr].
    rewrite IH; cbn [appState activeIndex lastSwitchTime];
      [| reflexivity | exact Hxr | exact Hsp | exact Hrest].
    rewrite Hx. cbn [List.length]. rewrite Zplus_mod_idemp_l.
    f_equal. lia.
Qed.

Lemma spaced_steady rot n : forall k : nat,
  spaced (INR k) (map (fun j => (INR j, rot)) (seq (S k) n)).
Proof.
  induction n as [| n IH]; intros k; cbn [seq map spaced]; [exact I|].
  split; [| apply IH].
  cbn [fst]. rewrite S_INR. unfold COOLDOWN. lra.
Qed.

(** X15: in FOCUSED, a run of right turns (roll above 0.4), each frame
    more than 0.8 s after the previous switch, advances the active index
    by the number of frames modulo the photo count: as many turns as
    there are photos bring back the photo the run started from. *)
Theorem photoFrames_right_turns (n : nat) (frames : list (R * R))
    (s : SceneState) :
  appState s = FOCUSED -> (1 < n)%nat ->
  (0 <= activeIndex s < Z.of_nat n)%Z ->
  spaced (lastSwitchTime s) frames ->
  Forall (fun f => THRESHOLD < snd f) frames ->
  activeIndex (photoFrames n frames s)
  = ((activeIndex s + Z.of_nat (List.length frames)) mod Z.of_nat n)%Z /\
  (List.length frames = n -> activeIndex (photoFrames n frames s) = activeIndex s).
Proof.
  intros Hm Hn Hi Hsp Hrot.
  pose proof (photoFrames_right n frames Hn s Hm Hi Hsp Hrot) as H.
  split; [exact H|].
  intros Hlen. rewrite H, Hlen.
  replace (activeIndex s + Z.of_nat n)%Z
    with (activeIndex s + 1 * Z.of_nat n)%Z by lia.
  rewrite Z.mod_add by lia. apply Z.mod_small. exact Hi.
Qed.

Lemma photoFrames_right_turns_witness :
  appState (mkScene FOCUSED 1%Z 0) = FOCUSED /\ (1 < 3)%nat /\
  activeIndex (photoFrames 3 (steadyFrames 1 3) (mkScene FOCUSED 1%Z 0)) = 1%Z.
Proof.
  assert (Hn : (1 < 3)%nat) by lia.
  assert (Hi : (0 <= activeIndex (mkScene FOCUSED 1%Z 0) < Z.of_nat 3)%Z)
    by (cbn; lia).
  assert (Hsp : spaced (lastSwitchTime (mkScene FOCUSED 1%Z 0))
                       (steadyFrames 1 3))
    by (exact (spaced_steady 1 3 0)).
  assert (Hrot : Forall (fun f => THRESHOLD < snd f) (steadyFrames 1 3))
    by (unfold steadyFrames, THRESHOLD; cbn [seq map];
        repeat constructor; cbn [snd]; lra).
  split; [reflexivity|]. split; [exact Hn|].
  exact (proj2 (photoFrames_right_turns 3 (steadyFrames 1 3)
                  (mkScene FOCUSED 1%Z 0) eq_refl Hn Hi Hsp Hrot) eq_refl).
Defined.

(** X16: in FOCUSED, a right turn followed (after the cooldown) by a left
    turn, or a left turn followed by a right turn, shows the photo that
    was active before; the timer holds the time of the second turn. *)
Theorem photoSwitch_round_trip (n : nat) (t1 t2 right left : R)
    (s : SceneState) :
  appState s = FOCUSED -> (1 < n)%nat ->
  (0 <= activeIndex s < Z.of_nat n)%Z ->
  COOLDOWN < t1 - lastSwitchTime s -> COOLDOWN < t2 - t1 ->
  THRESHOLD < right -> left < - THRESHOLD ->
  photoSwitch n t2 left (photoSwitch n t1 right s)
    = mkScene FOCUSED (activeIndex s) t2 /\
  photoSwitch n t2 right (photoSwitch n t1 left s)
    = mkScene FOCUSED (activeIndex s) t2.
Proof.
  intros Hm Hn Hi Hc1 Hc2 Hr Hl.
  destruct (rem_next_in_range _ _ Hi) as [Hx Hxr].
  destruct (rem_prev_in_range _ _ Hi) as [Hp Hpr].
  rewrite (photoSwitch_right n t1 right s Hm Hn Hc1 Hr).
  rewrite (photoSwitch_left n t1 left s Hm Hn Hc1 Hl).
  rewrite photoSwitch_left, photoSwitch_right;
    cbn [appState activeIndex lastSwitchTime];
    try reflexivity; try assumption.
  destruct (rem_prev_in_range _ _ Hxr) as [Hp2 _].
  destruct (rem_next_in_range _ _ Hpr) as [Hx2 _].
  rewrite Hp2, Hx2, Hx, Hp.
  rewrite Zminus_mod_idemp_l, Zplus_mod_idemp_l.
  replace (activeIndex s + 1 - 1)%Z with (activeIndex s) by lia.
  replace (activeIndex s - 1 + 1)%Z with (activeIndex s) by lia.
  rewrite Z.mod_small by exact Hi. split; reflexivity.
Qed.

Lemma photoSwitch_round_trip_witness :
  appState (mkScene FOCUSED 0%Z 0) = FOCUSED /\ (1 < 3)%nat /\
  photoSwitch 3 2 (-1) (photoSwitch 3 1 1 (mkScene FOCUSED 0%Z 0))
    = mkScene FOCUSED 0%Z 2.
Proof.
  assert (Hn : (1 < 3)%nat) by lia.
  assert (Hi : (0 <= activeIndex (mkScene FOCUSED 0%Z 0) < Z.of_nat 3)%Z)
    by (cbn; lia).
  assert (Hc1 : COOLDOWN < 1 - lastSwitchTime (mkScene FOCUSED 0%Z 0))
    by (unfold COOLDOWN; cbn; lra).
  assert (Hc2 : COOLDOWN < 2 - 1) by (unfold COOLDOWN; lra).
  assert (Hr : THRESHOLD < 1) by (unfold THRESHOLD; lra).
  assert (Hl : -1 < - THRESHOLD) by (unfold THRESHOLD; lra).
  split; [reflexivity|]. split; [exact Hn|].
  exact (proj1 (photoSwitch_round_trip 3 1 2 1 (-1) (mkScene FOCUSED 0%Z 0)
                  eq_refl Hn Hi Hc1 Hc2 Hr Hl)).
Defined.

(** X17: inside the cooldown nothing switches: frames that all come at
    most 0.8 s after the last switch leave the scene as it is, whatever
    the mode, the photo count and the rolls. *)
Theorem photoFrames_cooldown (n : nat) (frames : list (R * R))
    (s : SceneState) :
  Forall (fun f => fst f - lastSwitchTime s <= COOLDOWN) frames ->
  photoFrames n frames s = s.
Proof.
  induction frames as [| f frames IH]; intros H; [reflexivity|].
  inversion H as [| ? ? Hf Hrest]; subst.
  change (photoFrames n (f :: frames) s)
    with (photoFrames n frames (photoSwitch n (fst f) (snd f) s)).
  assert (Hs : photoSwitch n (fst f) (snd f) s = s).
  { unfold photoSwitch.
    destruct (AppState_eqb (appState s) FOCUSED && (1 <? n)%nat);
      [|reflexivity].
    destruct (Rlt_dec COOLDOWN (fst f - lastSwitchTime s)); [lra|reflexivity]. }
  rewrite Hs. apply IH. exact Hrest.
Qed.

Lemma photoFrames_cooldown_witness :
  Forall (fun f => fst f - lastSwitchTime (mkScene FOCUSED 0%Z 10) <= COOLDOWN)
         [(101 / 10, 1); (105 / 10, -1); (108 / 10, 1)] /\
  photoFrames 3 [(101 / 10, 1); (105 / 10, -1); (108 / 10, 1)]
              (mkScene FOCUSED 0%Z 10)
  = mkScene FOCUSED 0%Z 10.
Proof.
  assert (H : Forall (fun f => fst f - lastSwitchTime (mkScene FOCUSED 0%Z 10)
                               <= COOLDOWN)
                     [(101 / 10, 1); (105 / 10, -1); (108 / 10, 1)])
    by (unfold COOLDOWN; repeat constructor; cbn [fst lastSwitchTime]; lra).
  split; [exact H|].
  exact (photoFrames_cooldown 3 _ _ H).
Defined.

(** ** Scene: the orbit targets *)

(** X18: for a hand position inside [-1, 1] x [-1, 1] the azimuth the
    camera is eased to in SCATTERED lies in [-PI, PI] and the polar angle
    always above the controls' minimum PI/3, but above their maximum
    PI/1.8 exactly when the hand is lower than position.y = -PI/9: for a
    low hand the code asks for an angle beyond the limit. *)
Theorem orbit_targets (handPosition : Vec2.t) :
  -1 <= Vec2.x handPosition <= 1 -> -1 <= Vec2.y handPosition <= 1 ->
  - PI <= targetAzimuth handPosition <= PI /\
  minPolarAngle < targetPolar handPosition /\
  (maxPolarAngle < targetPolar handPosition
   <-> Vec2.y handPosition < - (PI / 9)).
Proof.
  intros Hx Hy. pose proof PI2_3_2 as Hpi. pose proof PI_RGT_0 as Hpos.
  unfold targetAzimuth, targetPolar, minPolarAngle, maxPolarAngle.
  replace (PI / (18 / 10)) with (PI / 2 + PI / 18) by field.
  split; [nra|]. split; [lra|]. split; intros H; lra.
Qed.

Lemma orbit_targets_witness :
  -1 <= Vec2.x (Vec2.new 0 (-1)) <= 1 /\ -1 <= Vec2.y (Vec2.new 0 (-1)) <= 1 /\
  maxPolarAngle < targetPolar (Vec2.new 0 (-1)).
Proof.
  assert (Hx : -1 <= Vec2.x (Vec2.new 0 (-1)) <= 1) by (cbn; lra).
  assert (Hy : -1 <= Vec2.y (Vec2.new 0 (-1)) <= 1) by (cbn; lra).
  split; [exact Hx|]. split; [exact Hy|].
  apply (proj2 (proj2 (orbit_targets (Vec2.new 0 (-1)) Hx Hy))).
  cbn [Vec2.y]. pose proof PI_4. lra.
Defined.

(** ** Photo panels: slots, flags and the focused one *)

Lemma clamp_range v lo hi : lo <= hi -> lo <= MathUtils.clamp v lo hi <= hi.
Proof.
  intros H. unfold MathUtils.clamp. split.
  - apply Rmax_l.
  - apply Rmax_lub; [exact H | apply Rmin_l].
Qed.

(** X19: whatever the jitter draw, the tree slot of photo [index] of
    [total] lies at a height in [-4, 4] (the spiral parameter is clamped
    to [0.1, 0.9]) and between 0.834 and 4.546 from the tree's axis: on
    the outside of the garland, never at the tip or on the floor. *)
Theorem treePos_slot (index total : nat) (s : nat -> R) :
  (index < total)%nat ->
  let slot := fst (treePos index total s) in
  -4 <= Vector3.y slot <= 4 /\
  (834 / 1000) * (834 / 1000) <= axisDistance2 slot
    <= (4546 / 1000) * (4546 / 1000).
Proof.
  intros _ slot. subst slot.
  unfold treePos, bind, ret, Math_random. cbn [fst].
  set (tRand := MathUtils.clamp _ (1 / 10) (9 / 10)).
  assert (Ht : 1 / 10 <= tRand <= 9 / 10)
    by (apply clamp_range; lra).
  clearbody tRand.
  unfold axisDistance2. cbn [Vector3.x Vector3.y Vector3.z].
  unfold MathUtils.lerp, TREE_HEIGHT, TREE_RADIUS_BASE.
  split; [lra|].
  set (d := (1 - tRand) * (42 / 10) + tRand * (1 / 10)
            + ((1 - tRand) * (9 / 10) + tRand * (3 / 10)) * (9 / 10)).
  assert (Hd : 834 / 1000 <= d <= 4546 / 1000) by (unfold d; lra).
  pose proof (sin_cos_unit (tRand * PI * 2 * turns)) as Hu.
  set (c := cos (tRand * PI * 2 * turns)) in *.
  set (sn := sin (tRand * PI * 2 * turns)) in *.
  replace (c * d * (c * d) + sn * d * (sn * d))
    with (d * d * (sn * sn + c * c)) by ring.
  rewrite Hu. clearbody d. clear - Hd. nra.
Qed.

Lemma treePos_slot_witness :
  (1 < 2)%nat /\
  -4 <= Vector3.y (fst (treePos 1 2 (constDraws (3 / 4)))) <= 4.
Proof.
  assert (H : (1 < 2)%nat) by lia.
  split; [exact H|].
  exact (proj1 (treePos_slot 1 2 (constDraws (3 / 4)) H)).
Defined.

Lemma countTrue_app (l1 l2 : list bool) :
  countTrue (l1 ++ l2) = (countTrue l1 + countTrue l2)%nat.
Proof. unfold countTrue. rewrite filter_app, length_app. reflexivity. Qed.

Lemma count_index_hits (a : Z) (n : nat) :
  countTrue (map (fun index => (Z.of_nat index =? a)%Z) (seq 0 n))
  = if ((0 <=? a) && (a <? Z.of_nat n))%Z then 1%nat else 0%nat.
Proof.
  induction n as [| n IH].
  - cbn. destruct (0 <=? a)%Z eqn:H0; cbn [andb]; [|reflexivity].
    destruct (Z.ltb_spec a 0); [|reflexivity]. apply Z.leb_le in H0. lia.
  - rewrite seq_S, map_app, countTrue_app, IH. cbn [map Nat.add].
    unfold countTrue. cbn [filter].
    destruct (Z.leb_spec 0 a), (Z.ltb_spec a (Z.of_nat n)),
             (Z.ltb_spec a (Z.of_nat (S n))), (Z.eqb_spec (Z.of_nat n) a);
      cbn [andb List.length]; lia.
Qed.

(** X20: the number of panels rendered as focused is 1 when the mode is
    FOCUSED and the active index names a photo, and 0 in every other
    case: never two panels in front of the camera. *)
Theorem focusFlags_count (n : nat) (m : AppState) (a : Z) :
  countTrue (focusFlags n m a)
  = if (AppState_eqb m FOCUSED && ((0 <=? a) && (a <? Z.of_nat n))%Z)%bool
    then 1%nat else 0%nat.
Proof.
  unfold focusFlags, isFocused.
  destruct (AppState_eqb m FOCUSED); cbn [andb].
  - apply count_index_hits.
  - unfold countTrue. induction (seq 0 n) as [| i l IH]; [reflexivity|].
    cbn [map filter]. exact IH.
Qed.

Lemma applyTo_norm (v : Vector3.t) (q : Quaternion.t) :
  let r := Quaternion.applyTo v q in
  Vector3.x r * Vector3.x r + Vector3.y r * Vector3.y r
  + Vector3.z r * Vector3.z r
  = quaternionNorm2 q * quaternionNorm2 q
    * (Vector3.x v * Vector3.x v + Vector3.y v * Vector3.y v
       + Vector3.z v * Vector3.z v).
Proof.
  destruct v as [vx vy vz], q as [qx qy qz qw].
  unfold Quaternion.applyTo, quaternionNorm2.
  cbn [Vector3.x Vector3.y Vector3.z Quaternion.x Quaternion.y Quaternion.z
       Quaternion.w]. ring.
Qed.

(** X21: while the camera's quaternion is a unit quaternion, the focused
    panel's target is at the same distance from the camera whatever the
    camera's position and orientation: sqrt(5^2 + 0.8^2), five units
    ahead and 0.8 up in the camera's own frame; and its target orientation
    is the camera's. *)
Theorem focused_target_distance (panel : Panel) (camera : Camera)
    (elapsedTime : R) :
  quaternionNorm2 (camera_quaternion camera) = 1 ->
  let t := panelTarget panel FOCUSED (Z.of_nat (panel_index panel)) camera
                       elapsedTime in
  distance2 (targetPos t) (camera_position camera) = 25 + 64 / 100 /\
  targetRot t = camera_quaternion camera /\
  targetScale t = 25 / 10.
Proof.
  intros Hq t. subst t. unfold panelTarget, isFocused.
  rewrite Z.eqb_refl. cbn [AppState_eqb andb resolveTarget].
  cbn [targetPos targetRot targetScale].
  split; [| split; reflexivity].
  destruct camera as [[px py pz] [qx qy qz qw]].
  unfold quaternionNorm2 in Hq.
  cbn [camera_quaternion camera_position Quaternion.x Quaternion.y
       Quaternion.z Quaternion.w] in *.
  unfold distance2, Vector3.add, Vector3.multiplyScalar, Quaternion.applyTo.
  cbn [Vector3.x Vector3.y Vector3.z Quaternion.x Quaternion.y Quaternion.z
       Quaternion.w].
  set (N := qx * qx + qy * qy + qz * qz + qw * qw) in *.
  match goal with |- ?lhs = _ =>
    replace lhs with ((25 + 64 / 100) * (N * N)) by (unfold N; field)
  end.
  rewrite Hq. ring.
Qed.

Lemma focused_target_distance_witness :
  quaternionNorm2 (camera_quaternion sampleCamera) = 1 /\
  distance2
    (targetPos (panelTarget samplePanel FOCUSED
                            (Z.of_nat (panel_index samplePanel))
                            sampleCamera 0))
    (camera_position sampleCamera) = 25 + 64 / 100.
Proof.
  assert (Hq : quaternionNorm2 (camera_quaternion sampleCamera) = 1)
    by (unfold quaternionNorm2; cbn; ring).
  split; [exact Hq|].
  exact (proj1 (focused_target_distance samplePanel sampleCamera 0 Hq)).
Defined.

Lemma setFromEuler_unit (ex ey ez : R) :
  quaternionNorm2 (Quaternion.setFromEuler ex ey ez) = 1.
Proof.
  unfold quaternionNorm2, Quaternion.setFromEuler.
  cbn [Quaternion.x Quaternion.y Quaternion.z Quaternion.w].
  pose proof (sin_cos_unit (ex / 2)) as H1.
  pose proof (sin_cos_unit (ey / 2)) as H2.
  pose proof (sin_cos_unit (ez / 2)) as H3.
  set (s1 := sin (ex / 2)) in *. set (c1 := cos (ex / 2)) in *.
  set (s2 := sin (ey / 2)) in *. set (c2 := cos (ey / 2)) in *.
  set (s3 := sin (ez / 2)) in *. set (c3 := cos (ez / 2)) in *.
  match goal with |- ?lhs = 1 =>
    replace lhs with ((s1 * s1 + c1 * c1) * (s2 * s2 + c2 * c2)
                      * (s3 * s3 + c3 * c3)) by ring
  end.
  rewrite H1, H2, H3. ring.
Qed.

(** X22: in every mode and for every panel, focused or not, the target
    orientation is a unit quaternion (a rotation) as long as the camera's
    is: the yaw in SCATTERED and the outward-facing tilt on the tree are
    unit by construction. *)
Theorem resolveTarget_unit_orientation (panel : Panel) (m : AppState)
    (focused : bool) (camera : Camera) (elapsedTime : R) :
  quaternionNorm2 (camera_quaternion camera) = 1 ->
  quaternionNorm2 (targetRot (resolveTarget panel m focused camera elapsedTime))
  = 1.
Proof.
  intros Hq. unfold resolveTarget.
  destruct focused; [exact Hq|].
  destruct (AppState_eqb m SCATTERED); cbn [targetRot];
    apply setFromEuler_unit.
Qed.

Lemma resolveTarget_unit_orientation_witness :
  quaternionNorm2 (camera_quaternion sampleCamera) = 1 /\
  quaternionNorm2
    (targetRot (resolveTarget samplePanel SCATTERED false sampleCamera 3)) = 1.
Proof.
  assert (Hq : quaternionNorm2 (camera_quaternion sampleCamera) = 1)
    by (unfold quaternionNorm2; cbn; ring).
  split; [exact Hq|].
  exact (resolveTarget_unit_orientation samplePanel SCATTERED false
           sampleCamera 3 Hq).
Defined.

(** ** MusicPlayer *)

Lemma floor_bounds (r : R) : IZR (floor r) <= r < IZR (floor r) + 1.
Proof. unfold floor. pose proof (base_Int_part r). lra. Qed.

Lemma floor_nonneg (r : R) : 0 <= r -> (0 <= floor r)%Z.
Proof.
  intros H. pose proof (floor_bounds r) as [_ Hb].
  assert (Hlt : IZR (-1) < IZR (floor r)) by (simpl; lra).
  apply lt_IZR in Hlt. lia.
Qed.

Lemma floor_add (r : R) (k : Z) : floor (r + IZR k) = (floor r + k)%Z.
Proof.
  symmetry. unfold floor at 2. apply Int_part_spec.
  pose proof (floor_bounds r). rewrite plus_IZR. lra.
Qed.

Lemma at_index_phrases (i : Z) :
  (0 <= i < 5)%Z -> exists phrase, at_index phrases i = Some phrase.
Proof.
  intros H. unfold at_index.
  destruct (Z.ltb_spec i 0); [lia|].
  assert (Hn : (Z.to_nat i < List.length phrases)%nat) by (cbn; lia).
  apply nth_error_Some in Hn.
  destruct (nth_error phrases (Z.to_nat i)); [eexists; reflexivity|].
  contradiction.
Qed.

(** X23: at every playback time (current >= 0) the lyric is one of the
    five phrases, never undefined; it is the first phrase during the
    first four seconds and repeats with a period of 20 s; the duration
    plays no part in it. *)
Theorem lyric_cycles (current : R) (duration : option R) :
  0 <= current ->
  (exists phrase,
     snd (handleTimeUpdate current duration) = Some phrase /\
     In phrase phrases) /\
  (current < 4 ->
   snd (handleTimeUpdate current duration) = Some "Spark and shine..."%string) /\
  snd (handleTimeUpdate (current + 20) duration)
  = snd (handleTimeUpdate current duration).
Proof.
  intros Hc. unfold handleTimeUpdate. cbn [snd List.length phrases].
  change (Z.of_nat 5) with 5%Z.
  assert (Hk : (0 <= floor (current / 4))%Z) by (apply floor_nonneg; lra).
  split; [|split].
  - assert (Hr : (0 <= Z.rem (floor (current / 4)) 5 < 5)%Z)
      by (rewrite Z.rem_mod_nonneg by lia; apply Z.mod_pos_bound; lia).
    destruct (at_index_phrases _ Hr) as [phrase Hp].
    exists phrase. split; [exact Hp|].
    unfold at_index in Hp.
    destruct (_ <? 0)%Z; [discriminate|].
    apply nth_error_In in Hp. exact Hp.
  - intros H4.
    assert (Hz : floor (current / 4) = 0%Z).
    { symmetry. unfold floor. apply Int_part_spec. simpl. lra. }
    rewrite Hz. reflexivity.
  - replace ((current + 20) / 4) with (current / 4 + IZR 5) by (simpl; field).
    rewrite floor_add.
    rewrite !Z.rem_mod_nonneg by lia.
    replace (floor (current / 4) + 5)%Z
      with (floor (current / 4) + 1 * 5)%Z by lia.
    rewrite Z.mod_add by lia. reflexivity.
Qed.

Lemma lyric_cycles_witness :
  0 <= 21 /\
  snd (handleTimeUpdate (1 + 20) None) = snd (handleTimeUpdate 1 None) /\
  snd (handleTimeUpdate 1 None) = Some "Spark and shine..."%string.
Proof.
  assert (H1 : 0 <= 1) by lra.
  split; [lra|].
  destruct (lyric_cycles 1 None H1) as (_ & Hfirst & Hperiod).
  split; [exact Hperiod | apply Hfirst; lra].
Defined.

(** X24: the progress is a percentage, between 0 and 100, whenever the
    playback time lies between 0 and a positive duration; while the
    duration is still unknown (NaN) or 0 the divisor falls back to 1, so
    nothing is divided by zero and the progress is 100 times the time. *)
Theorem progress_range (current : R) (duration : option R) :
  (forall d, duration = Some d -> 0 < d -> 0 <= current <= d ->
     0 <= fst (handleTimeUpdate current duration) <= 100) /\
  (duration = None \/ duration = Some 0 ->
     fst (handleTimeUpdate current duration) = current * 100).
Proof.
  unfold handleTimeUpdate, durationOr1. cbn [fst]. split.
  - intros d -> Hd Hc.
    destruct (Req_dec_T d 0); [lra|].
    assert (Hq : 0 <= current / d <= 1).
    { split.
      - apply Rmult_le_pos; [lra | left; apply Rinv_0_lt_compat, Hd].
      - apply (Rmult_le_reg_r d); [exact Hd|].
        unfold Rdiv. rewrite Rmult_assoc, Rinv_l by lra. lra. }
    lra.
  - intros [-> | ->].
    + field.
    + destruct (Req_dec_T 0 0); [field | contradiction].
Qed.

Lemma progress_range_witness :
  0 < 200 /\ 0 <= 50 <= 200 /\
  0 <= fst (handleTimeUpdate 50 (Some 200)) <= 100.
Proof.
  assert (Hd : 0 < 200) by lra.
  assert (Hc : 0 <= 50 <= 200) by lra.
  split; [exact Hd|]. split; [exact Hc|].
  exact (proj1 (progress_range 50 (Some 200)) 200 eq_refl Hd Hc).
Defined.

(** ** App: uploads *)

Section UploadFacts.

Variable File : Type.
Variable createObjectURL : File -> string.
Variable uuidText : R -> string.

Lemma addPhotos_appends (files : list File) :
  forall (photos : list PhotoData) (s : nat -> R),
  exists added,
    fst (addPhotos File createObjectURL uuidText files photos s)
    = photos ++ added /\
    map url added = map createObjectURL files /\
    Forall (fun p => aspectRatio p = 1) added.
Proof.
  induction files as [| file files IH]; intros photos s.
  - exists []. cbn. rewrite app_nil_r. repeat split. constructor.
  - cbn [addPhotos]. unfold bind at 1.
    unfold addPhoto, generateUUID, bind, ret, Math_random.
    destruct (IH (photos ++ [mkPhoto (uuidText (s 0%nat))
                                     (createObjectURL file) 1])
                 (fun n => s (S n))) as (added & Heq & Hurl & Hasp).
    exists (mkPhoto (uuidText (s 0%nat)) (createObjectURL file) 1 :: added).
    split; [| split].
    + rewrite Heq, <- app_assoc. reflexivity.
    + cbn [map url]. rewrite Hurl. reflexivity.
    + constructor; [reflexivity | exact Hasp].
Qed.

(** X25: an upload only appends: the photos there were keep their places
    (so every panel index, the active one included, still names the same
    photo), one photo is added per file, in the order of the files, each
    with its file's object URL and aspect ratio 1; without a file list
    nothing changes. *)
Theorem handleFileUpload_appends (files : list File)
    (photos : list PhotoData) (s : nat -> R) :
  (exists added,
     fst (handleFileUpload File createObjectURL uuidText (Some files) photos s)
     = photos ++ added /\
     map url added = map createObjectURL files /\
     Forall (fun p => aspectRatio p = 1) added) /\
  (forall i p, nth_error photos i = Some p ->
     nth_error
       (fst (handleFileUpload File createObjectURL uuidText (Some files)
                              photos s)) i = Some p) /\
  List.length
    (fst (handleFileUpload File createObjectURL uuidText (Some files) photos s))
  = (List.length photos + List.length files)%nat /\
  fst (handleFileUpload File createObjectURL uuidText None photos s) = photos.
Proof.
  cbn [handleFileUpload].
  destruct (addPhotos_appends files photos s) as (added & Heq & Hurl & Hasp).
  split; [exists added; repeat split; assumption|].
  split; [| split; [| reflexivity]].
  - intros i p Hp. rewrite Heq.
    rewrite nth_error_app1; [exact Hp|].
    apply nth_error_Some. rewrite Hp. discriminate.
  - rewrite Heq, length_app.
    apply (f_equal (@List.length string)) in Hurl.
    rewrite !length_map in Hurl. lia.
Qed.

End UploadFacts.

(** ** GiftFloor *)

Lemma floor_of_scaled_draw (c : R) :
  0 <= c < 1 -> (0 <= floor (c * INR (List.length giftColors)) < 5)%Z.
Proof.
  intros Hc.
  replace (INR (List.length giftColors)) with 5 by (cbn; ring).
  pose proof (floor_bounds (c * 5)) as [Hlo Hhi].
  split; [apply floor_nonneg; lra|].
  apply lt_IZR. simpl. lra.
Qed.

Lemma giftBox_facts (s : nat -> R) :
  unitDraws s ->
  let g := fst (giftBox s) in
  giftBottom g = floorY - 1 / 2 /\
  665 / 1000 <= gift_scale g < 133 / 100 /\
  (168 / 100) * (168 / 100) <= axisDistance2 (gift_position g)
    < (504 / 100) * (504 / 100) /\
  exists c, gift_color g = Some c /\ In c giftColors.
Proof.
  intros Hs g. subst g.
  unfold giftBox, bind, ret, Math_random. cbn [fst snd].
  unfold giftBottom, axisDistance2.
  cbn [gift_position gift_scale gift_color Vector3.x Vector3.y Vector3.z].
  pose proof (Hs 1%nat) as Hl. pose proof (Hs 3%nat) as Hb.
  split; [field|]. split; [lra|]. split.
  - unfold MathUtils.lerp, TREE_RADIUS_BASE.
    set (radius := (1 - s 1%nat) * (42 / 10 * (4 / 10))
                   + s 1%nat * (42 / 10 * (12 / 10))).
    assert (Hr : 168 / 100 <= radius < 504 / 100) by (unfold radius; lra).
    pose proof (sin_cos_unit (s 0%nat * PI * 2)) as Hu.
    set (c := cos (s 0%nat * PI * 2)) in *.
    set (sn := sin (s 0%nat * PI * 2)) in *.
    replace (c * radius * (c * radius) + sn * radius * (sn * radius))
      with (radius * radius * (sn * sn + c * c)) by ring.
    rewrite Hu. clearbody radius. clear - Hr. nra.
  - pose proof (floor_of_scaled_draw (s 4%nat) (Hs 4%nat)) as Hk.
    set (k := floor (s 4%nat * INR (List.length giftColors))) in *.
    unfold at_index. destruct (Z.ltb_spec k 0); [lia|].
    assert (Hn : (Z.to_nat k < List.length giftColors)%nat) by (cbn; lia).
    apply nth_error_Some in Hn.
    destruct (nth_error giftColors (Z.to_nat k)) as [c |] eqn:E;
      [| contradiction].
    exists c. split; [reflexivity|]. apply nth_error_In in E. exact E.
Qed.

Lemma giftBox_draws (P : R -> Prop) s :
  drawsAll P s -> drawsAll P (snd (giftBox s)).
Proof. intros H n. apply H. Qed.

(** X26: on draws in [0, 1) the floor holds exactly 40 gifts, and every
    one of them rests on the same plane, floorY - 0.5 = -height/2 - 0.1,
    whatever its size; its scale lies in [0.665, 1.33), its centre
    between 1.68 and 5.04 from the tree's axis (40 to 120 percent of the
    base radius), and its colour is one of the five gift colours, never
    undefined. *)
Theorem GiftFloor_gifts (s : nat -> R) :
  unitDraws s ->
  List.length (fst (GiftFloor s)) = 40%nat /\
  Forall (fun g =>
            giftBottom g = - TREE_HEIGHT / 2 - 1 / 10 /\
            665 / 1000 <= gift_scale g < 133 / 100 /\
            (168 / 100) * (168 / 100) <= axisDistance2 (gift_position g)
              < (504 / 100) * (504 / 100) /\
            exists c, gift_color g = Some c /\ In c giftColors)
         (fst (GiftFloor s)).
Proof.
  intros Hs. split.
  - exact (forLoop_length (fun _ => giftBox) GIFT_COUNT 0 s).
  - unfold GiftFloor.
    apply (forLoop_Forall (fun r => 0 <= r < 1) _ _ GIFT_COUNT);
      [| lia | exact Hs].
    intros i s0 _ Hs0. split.
    + pose proof (giftBox_facts s0 Hs0) as H. cbv zeta in H.
      destruct H as (Hb & Hrest). split; [|exact Hrest].
      rewrite Hb. unfold floorY. field.
    + apply (giftBox_draws (fun r => 0 <= r < 1)), Hs0.
Qed.

Lemma GiftFloor_gifts_witness :
  unitDraws (constDraws (1 / 2)) /\
  List.length (fst (GiftFloor (constDraws (1 / 2)))) = 40%nat.
Proof.
  assert (H : unitDraws (constDraws (1 / 2)))
    by (intros n; unfold constDraws; lra).
  split; [exact H|].
  exact (proj1 (GiftFloor_gifts (constDraws (1 / 2)) H)).
Defined.

(** ** Scene: the effect and the reachable states *)

(** X27: one run of the gesture effect calls [setAppState] at most once,
    and the run that React schedules after the mode has changed (the mode
    is a dependency of the effect) changes nothing more: the mode settles
    after one update. *)
Theorem gestureEffect_settles (g : GestureType) (n : nat) (s : SceneState) :
  (List.length (gestureEffect g (appState s) n) <= 1)%nat /\
  gestureUpdate g n (gestureUpdate g n s) = gestureUpdate g n s.
Proof.
  split.
  - apply gestureEffect_at_most_one_call.
  - apply gestureUpdate_idempotent.
Qed.

(** X28: from the initial state (ASSEMBLED, index 0, no photo), whatever
    gestures, frames and uploads follow, a scene that is in FOCUSED has
    at least one photo and its active index names one of them, so the
    focused panel always exists. *)
Theorem reachable_focused_index (events : list Event) :
  appState (scene (run events initialWorld)) = FOCUSED ->
  (0 < photos_length (run events initialWorld))%nat /\
  (0 <= activeIndex (scene (run events initialWorld))
   < Z.of_nat (photos_length (run events initialWorld)))%Z /\
  countTrue (focusFlags (photos_length (run events initialWorld)) FOCUSED
                        (activeIndex (scene (run events initialWorld))))
  = 1%nat.
Proof.
  intros Hm.
  pose proof (activeIndex_always_valid events) as [H0 H1].
  assert (Hn : (0 < photos_length (run events initialWorld))%nat).
  { apply (run_preserves_focusedHasPhotos events initialWorld); [|exact Hm].
    intros H. discriminate H. }
  set (w := run events initialWorld) in *.
  assert (Hi : (0 <= activeIndex (scene w) < Z.of_nat (photos_length w))%Z)
    by lia.
  split; [exact Hn|]. split; [exact Hi|].
  unfold focusFlags, isFocused. cbn [AppState_eqb andb].
  rewrite count_index_hits.
  destruct (Z.leb_spec 0 (activeIndex (scene w))),
           (Z.ltb_spec (activeIndex (scene w)) (Z.of_nat (photos_length w)));
    cbn [andb]; lia.
Qed.

Lemma reachable_focused_index_witness :
  appState
    (scene (run [UploadEvent; GestureEvent FIST; GestureEvent OPEN_PALM;
                 GestureEvent PINCH] initialWorld)) = FOCUSED /\
  (0 <= activeIndex
          (scene (run [UploadEvent; GestureEvent FIST; GestureEvent OPEN_PALM;
                       GestureEvent PINCH] initialWorld))
   < Z.of_nat
       (photos_length
          (run [UploadEvent; GestureEvent FIST; GestureEvent OPEN_PALM;
                GestureEvent PINCH] initialWorld)))%Z.
Proof.
  split; [reflexivity|].
  exact (proj1 (proj2 (reachable_focused_index
                         [UploadEvent; GestureEvent FIST;
                          GestureEvent OPEN_PALM; GestureEvent PINCH]
                         eq_refl))).
Defined.
